(** * A to-do list kept in a cookie: model of [src/App.tsx]

    The development embeds the React component of [src/App.tsx] and the
    platform functions it calls (string trimming, [JSON.stringify],
    [JSON.parse], [encodeURIComponent], [decodeURIComponent] and the
    [document.cookie] accessor) as Rocq functions, and proves the
    properties of the task store, of the view projection and of the
    persistence codec.

    Strings are JavaScript strings: finite sequences of UTF-16 code
    units.  A code unit is a number below 65536, kept in [N]. *)

From Stdlib Require Import List NArith ZArith Lia Bool Ascii String Permutation.
Import ListNotations.
Open Scope N_scope.

(* ================================================================= *)
(** ** JavaScript strings *)

Definition jsstring := list N.

(** An ASCII literal as a JavaScript string. *)
Definition lit (s : string) : jsstring :=
  List.map N_of_ascii (list_ascii_of_string s).

Definition code_unit (c : N) : Prop := c < 0x10000.

(** Every code unit of the string is a 16-bit value. *)
Definition wf_string (s : jsstring) : Prop := Forall code_unit s.

Fixpoint string_eqb (a b : jsstring) : bool :=
  match a, b with
  | [], [] => true
  | x :: a', y :: b' => (x =? y) && string_eqb a' b'
  | _, _ => false
  end.

(** [!s] for a string [s]: only the empty string is falsy. *)
Definition is_empty (s : jsstring) : bool :=
  match s with [] => true | _ :: _ => false end.

(** WhiteSpace and LineTerminator code points of ECMAScript, the ones
    [String.prototype.trim] strips. *)
Definition is_white_space (c : N) : bool :=
  (c =? 0x09) || (c =? 0x0A) || (c =? 0x0B) || (c =? 0x0C) || (c =? 0x0D)
  || (c =? 0x20) || (c =? 0xA0) || (c =? 0x1680)
  || ((0x2000 <=? c) && (c <=? 0x200A))
  || (c =? 0x2028) || (c =? 0x2029) || (c =? 0x202F) || (c =? 0x205F)
  || (c =? 0x3000) || (c =? 0xFEFF).

Fixpoint trim_start (s : jsstring) : jsstring :=
  match s with
  | c :: r => if is_white_space c then trim_start r else s
  | [] => []
  end.

Definition trim_end (s : jsstring) : jsstring := rev (trim_start (rev s)).

(** [s.trim()] *)
Definition trim (s : jsstring) : jsstring := trim_end (trim_start s).

(** A string made of white space only (the empty string included). *)
Definition blank (s : jsstring) : bool := forallb is_white_space s.

(* ================================================================= *)
(** ** The task store *)

(** [type Todo = { id; title; completed; createdAt }] *)
Record Todo := mkTodo {
  id : jsstring;
  title : jsstring;
  completed : bool;
  createdAt : jsstring
}.

(** The filter mode ['all' | 'active' | 'completed']. *)
Inductive Filter := FAll | FActive | FCompleted.

(** The five [useState] cells of the component. *)
Record AppState := mkApp {
  todos : list Todo;
  newTitle : jsstring;
  editingId : option jsstring;
  editingTitle : jsstring;
  filter : Filter
}.

Definition setTodos (f : list Todo -> list Todo) (s : AppState) : AppState :=
  mkApp (f (todos s)) (newTitle s) (editingId s) (editingTitle s) (filter s).

Definition setNewTitle (v : jsstring) (s : AppState) : AppState :=
  mkApp (todos s) v (editingId s) (editingTitle s) (filter s).

Definition setEditingId (v : option jsstring) (s : AppState) : AppState :=
  mkApp (todos s) (newTitle s) v (editingTitle s) (filter s).

Definition setEditingTitle (v : jsstring) (s : AppState) : AppState :=
  mkApp (todos s) (newTitle s) (editingId s) v (filter s).

Definition setFilter (v : Filter) (s : AppState) : AppState :=
  mkApp (todos s) (newTitle s) (editingId s) (editingTitle s) v.

(** [filteredTodos], the [useMemo] of lines 60-64. *)
Definition filteredTodos (s : AppState) : list Todo :=
  match filter s with
  | FActive => List.filter (fun t => negb (completed t)) (todos s)
  | FCompleted => List.filter (fun t => completed t) (todos s)
  | FAll => todos s
  end.

(** [handleAddTodo]; [uuid] is the result of [crypto.randomUUID()] and
    [now] the one of [new Date().toISOString()]. *)
Definition handleAddTodo (uuid now : jsstring) (s : AppState) : AppState :=
  let title := trim (newTitle s) in
  if is_empty title then s
  else
    let todo := mkTodo uuid title false now in
    setNewTitle [] (setTodos (fun prev => todo :: prev) s).

(** [{ ...t, completed: !t.completed }] *)
Definition flip_completed (t : Todo) : Todo :=
  mkTodo (id t) (title t) (negb (completed t)) (createdAt t).

(** [{ ...t, title }] *)
Definition with_title (v : jsstring) (t : Todo) : Todo :=
  mkTodo (id t) v (completed t) (createdAt t).

Definition handleToggleTodo (i : jsstring) (s : AppState) : AppState :=
  setTodos
    (fun prev =>
       List.map (fun t => if string_eqb (id t) i then flip_completed t else t)
                prev)
    s.

Definition handleDeleteTodo (i : jsstring) (s : AppState) : AppState :=
  setTodos (fun prev => List.filter (fun t => negb (string_eqb (id t) i)) prev)
           s.

Definition startEditTodo (todo : Todo) (s : AppState) : AppState :=
  setEditingTitle (title todo) (setEditingId (Some (id todo)) s).

Definition handleEditSubmit (i : jsstring) (s : AppState) : AppState :=
  let title := trim (editingTitle s) in
  if is_empty title then
    setEditingTitle [] (setEditingId None s)
  else
    setEditingTitle []
      (setEditingId None
         (setTodos
            (fun prev =>
               List.map
                 (fun t => if string_eqb (id t) i then with_title title t
                           else t)
                 prev)
            s)).

Definition handleClearCompleted (s : AppState) : AppState :=
  setTodos (fun prev => List.filter (fun t => negb (completed t)) prev) s.

Definition activeCount (s : AppState) : nat :=
  List.length (List.filter (fun t => negb (completed t)) (todos s)).

(** The operations of the task store, as the user interface triggers
    them: [Add title] types [title] into the entry field and submits the
    form; [Rename i title] types [title] into the edit field of task [i]
    and commits it. *)
Inductive op :=
| Add (title uuid now : jsstring)
| Toggle (i : jsstring)
| Rename (i title : jsstring)
| Remove (i : jsstring)
| ClearCompleted.

Definition apply_op (o : op) (s : AppState) : AppState :=
  match o with
  | Add t uuid now => handleAddTodo uuid now (setNewTitle t s)
  | Toggle i => handleToggleTodo i s
  | Rename i t => handleEditSubmit i (setEditingTitle t s)
  | Remove i => handleDeleteTodo i s
  | ClearCompleted => handleClearCompleted s
  end.

Definition run (ops : list op) (s : AppState) : AppState :=
  fold_left (fun st o => apply_op o st) ops s.

(* ================================================================= *)
(** ** Exceptions *)

(** [RangeError] is what an engine throws when its stack is exhausted. *)
Inductive exn := SyntaxError | TypeError | URIError | RangeError.

(** The outcome of a call that may throw. *)
Inductive result (A : Type) : Type :=
| Ok (a : A)
| Throw (e : exn).
Arguments Ok {A} a.
Arguments Throw {A} e.

Definition bind {A B} (c : result A) (k : A -> result B) : result B :=
  match c with
  | Ok a => k a
  | Throw e => Throw e
  end.

Definition rmap {A B} (f : A -> B) (c : result A) : result B :=
  bind c (fun a => Ok (f a)).

Notation "x <- c ;; k" := (bind c (fun x => k))
  (at level 61, c at next level, right associativity).
Notation "' p <- c ;; k" := (bind c (fun x => let 'p := x in k))
  (at level 61, p pattern, c at next level, right associativity).

(* ================================================================= *)
(** ** [encodeURIComponent] and [decodeURIComponent] (ECMA-262, 19.2.6) *)

Definition is_alpha (c : N) : bool :=
  ((0x41 <=? c) && (c <=? 0x5A)) || ((0x61 <=? c) && (c <=? 0x7A)).

Definition is_digit (c : N) : bool := (0x30 <=? c) && (c <=? 0x39).

(** The characters [encodeURIComponent] leaves as they are: letters,
    digits and [_ - . ! ~ * ' ( )]. *)
Definition uri_unescaped (c : N) : bool :=
  is_alpha c || is_digit c || (c =? 0x5F)
  || (c =? 0x2D) || (c =? 0x2E) || (c =? 0x21) || (c =? 0x7E)
  || (c =? 0x2A) || (c =? 0x27) || (c =? 0x28) || (c =? 0x29).

Definition is_high_surrogate (c : N) : bool := (0xD800 <=? c) && (c <=? 0xDBFF).
Definition is_low_surrogate (c : N) : bool := (0xDC00 <=? c) && (c <=? 0xDFFF).

(** The code point of a surrogate pair. *)
Definition pair_code_point (hi lo : N) : N :=
  0x10000 + (hi - 0xD800) * 0x400 + (lo - 0xDC00).

(** UTF16EncodeCodePoint *)
Definition utf16 (cp : N) : jsstring :=
  if cp <? 0x10000 then [cp]
  else [0xD800 + (cp - 0x10000) / 0x400; 0xDC00 + (cp - 0x10000) mod 0x400].

(** The UTF-8 octets of a code point. *)
Definition utf8 (cp : N) : list N :=
  if cp <? 0x80 then [cp]
  else if cp <? 0x800 then [0xC0 + cp / 64; 0x80 + cp mod 64]
  else if cp <? 0x10000 then
    [0xE0 + cp / 4096; 0x80 + (cp / 64) mod 64; 0x80 + cp mod 64]
  else
    [0xF0 + cp / 262144; 0x80 + (cp / 4096) mod 64;
     0x80 + (cp / 64) mod 64; 0x80 + cp mod 64].

(** An upper-case hexadecimal digit. *)
Definition hex_digit (n : N) : N := if n <? 10 then 0x30 + n else 0x37 + n.

(** [%XX] for every octet. *)
Definition escape (octets : list N) : jsstring :=
  flat_map (fun b => [0x25; hex_digit (b / 16); hex_digit (b mod 16)]) octets.

Fixpoint encodeURIComponent (s : jsstring) : result jsstring :=
  match s with
  | [] => Ok []
  | c :: r =>
    if uri_unescaped c then rmap (cons c) (encodeURIComponent r)
    else if is_high_surrogate c then
      match r with
      | d :: r' =>
        if is_low_surrogate d then
          rmap (app (escape (utf8 (pair_code_point c d))))
               (encodeURIComponent r')
        else Throw URIError
      | [] => Throw URIError
      end
    else if is_low_surrogate c then Throw URIError
    else rmap (app (escape (utf8 c))) (encodeURIComponent r)
  end.

Definition hex_val (c : N) : option N :=
  if is_digit c then Some (c - 0x30)
  else if (0x41 <=? c) && (c <=? 0x46) then Some (c - 0x37)
  else if (0x61 <=? c) && (c <=? 0x66) then Some (c - 0x57)
  else None.

(** ParseHexOctet *)
Definition hex_octet (a b : N) : option N :=
  match hex_val a, hex_val b with
  | Some x, Some y => Some (16 * x + y)
  | _, _ => None
  end.

(** An escape [%XY] that holds a continuation octet [10xxxxxx]; the
    result is its six payload bits. *)
Definition continuation (p a b : N) : option N :=
  if p =? 0x25 then
    match hex_octet a b with
    | Some o => if (0x80 <=? o) && (o <=? 0xBF) then Some (o - 0x80) else None
    | None => None
    end
  else None.

(** The code point of a two-, three- or four-octet sequence with lead
    octet [B], when the sequence is valid UTF-8: shortest form, no
    surrogate, at most U+10FFFF. *)
Definition utf8_decode2 (B x1 : N) : option N :=
  let v := (B - 0xC0) * 64 + x1 in
  if 0x80 <=? v then Some v else None.

Definition utf8_decode3 (B x1 x2 : N) : option N :=
  let v := (B - 0xE0) * 4096 + x1 * 64 + x2 in
  if (0x800 <=? v) && negb ((0xD800 <=? v) && (v <=? 0xDFFF)) then Some v
  else None.

Definition utf8_decode4 (B x1 x2 x3 : N) : option N :=
  let v := (B - 0xF0) * 262144 + x1 * 4096 + x2 * 64 + x3 in
  if (0x10000 <=? v) && (v <=? 0x10FFFF) then Some v else None.

Definition decoded (v : option N) (k : result jsstring) : result jsstring :=
  match v with
  | Some cp => rmap (app (utf16 cp)) k
  | None => Throw URIError
  end.

Fixpoint decodeURIComponent (s : jsstring) : result jsstring :=
  match s with
  | [] => Ok []
  | c :: r =>
    if negb (c =? 0x25) then rmap (cons c) (decodeURIComponent r)
    else
      match r with
      | a :: b :: r1 =>
        match hex_octet a b with
        | None => Throw URIError
        | Some B =>
          if B <? 0x80 then rmap (cons B) (decodeURIComponent r1)
          else if B <? 0xC0 then Throw URIError
          else if B <? 0xE0 then
            match r1 with
            | p1 :: a1 :: b1 :: r2 =>
              match continuation p1 a1 b1 with
              | Some x1 => decoded (utf8_decode2 B x1) (decodeURIComponent r2)
              | None => Throw URIError
              end
            | _ => Throw URIError
            end
          else if B <? 0xF0 then
            match r1 with
            | p1 :: a1 :: b1 :: p2 :: a2 :: b2 :: r3 =>
              match continuation p1 a1 b1, continuation p2 a2 b2 with
              | Some x1, Some x2 =>
                decoded (utf8_decode3 B x1 x2) (decodeURIComponent r3)
              | _, _ => Throw URIError
              end
            | _ => Throw URIError
            end
          else if B <? 0xF8 then
            match r1 with
            | p1 :: a1 :: b1 :: p2 :: a2 :: b2 :: p3 :: a3 :: b3 :: r4 =>
              match continuation p1 a1 b1, continuation p2 a2 b2,
                    continuation p3 a3 b3 with
              | Some x1, Some x2, Some x3 =>
                decoded (utf8_decode4 B x1 x2 x3) (decodeURIComponent r4)
              | _, _, _ => Throw URIError
              end
            | _ => Throw URIError
            end
          else Throw URIError
        end
      | _ => Throw URIError
      end
  end.

(* ================================================================= *)
(** ** JSON values *)

(** A JSON number is kept as the decimal its literal denotes,
    [(-1)^neg * mant * 10^exp10]; JavaScript rounds it to a double. *)
Record number := mkNumber { n_neg : bool; n_mant : N; n_exp10 : Z }.

#[local] Set Warnings "-register-all".

Inductive value :=
| VNull
| VBool (b : bool)
| VNum (n : number)
| VStr (s : jsstring)
| VArr (l : list value)
| VObj (o : list (jsstring * value)).

(** An object: its own enumerable properties, in enumeration order. *)
Definition object := list (jsstring * value).

(** The double nearest to the decimal is zero: the mantissa is zero, or
    the decimal is at most [2^-1075], half of the least positive double
    (a tie rounds to the even neighbour, which is zero). *)
Definition number_is_zero (n : number) : bool :=
  (n_mant n =? 0)
  || ((n_exp10 n <? 0)%Z
      && (Z.of_N (n_mant n) * 2 ^ 1075 <=? 10 ^ (- n_exp10 n))%Z).

(** ToBoolean; [None] is [undefined]. *)
Definition to_boolean (v : option value) : bool :=
  match v with
  | None => false
  | Some VNull => false
  | Some (VBool b) => b
  | Some (VNum n) => negb (number_is_zero n)
  | Some (VStr s) => negb (is_empty s)
  | Some (VArr _) => true
  | Some (VObj _) => true
  end.

Fixpoint lookup (k : jsstring) (o : object) : option value :=
  match o with
  | [] => None
  | (k', v) :: r => if string_eqb k' k then Some v else lookup k r
  end.

Fixpoint digits (s : jsstring) (acc : N) (n : nat) : N * nat * jsstring :=
  match s with
  | c :: r =>
    if is_digit c then digits r (10 * acc + (c - 0x30)) (S n) else (acc, n, s)
  | [] => (acc, n, [])
  end.

(** The array index a property key denotes, if it is one: a canonical
    decimal numeral below [2^32 - 1]. *)
Definition array_index (k : jsstring) : option N :=
  match k with
  | [] => None
  | c :: r =>
    if forallb is_digit k && (negb (c =? 0x30) || is_empty r) then
      let '(v, _, _) := digits k 0 0 in
      if v <? 0xFFFFFFFF then Some v else None
    else None
  end.

Fixpoint replace_value (k : jsstring) (v : value) (o : object) : object :=
  match o with
  | [] => []
  | (k', v') :: r =>
    if string_eqb k' k then (k', v) :: r else (k', v') :: replace_value k v r
  end.

(** Index keys come first, in ascending order. *)
Fixpoint insert_index (i : N) (k : jsstring) (v : value) (o : object)
  : object :=
  match o with
  | [] => [(k, v)]
  | (k', v') :: r =>
    match array_index k' with
    | Some j => if j <? i then (k', v') :: insert_index i k v r
                else (k, v) :: o
    | None => (k, v) :: o
    end
  end.

(** CreateDataProperty on an ordinary object: an existing key keeps its
    place; a new index key goes among the index keys; any other new key
    goes last. *)
Definition obj_set (k : jsstring) (v : value) (o : object) : object :=
  match lookup k o with
  | Some _ => replace_value k v o
  | None =>
    match array_index k with
    | Some i => insert_index i k v o
    | None => o ++ [(k, v)]
    end
  end.

Fixpoint uint_digits (u : Decimal.uint) : jsstring :=
  match u with
  | Decimal.Nil => []
  | Decimal.D0 r => 0x30 :: uint_digits r
  | Decimal.D1 r => 0x31 :: uint_digits r
  | Decimal.D2 r => 0x32 :: uint_digits r
  | Decimal.D3 r => 0x33 :: uint_digits r
  | Decimal.D4 r => 0x34 :: uint_digits r
  | Decimal.D5 r => 0x35 :: uint_digits r
  | Decimal.D6 r => 0x36 :: uint_digits r
  | Decimal.D7 r => 0x37 :: uint_digits r
  | Decimal.D8 r => 0x38 :: uint_digits r
  | Decimal.D9 r => 0x39 :: uint_digits r
  end.

(** The decimal numeral of an index. *)
Definition index_key (i : nat) : jsstring := uint_digits (Nat.to_uint i).

Fixpoint indexed {A} (f : A -> value) (i : nat) (l : list A) : object :=
  match l with
  | [] => []
  | x :: r => (index_key i, f x) :: indexed f (S i) r
  end.

(** [{ ...t }]: the own enumerable properties of [t].  An array or a
    string has its elements under the index keys; a number, a boolean
    and [null] have none. *)
Definition spread (t : value) : object :=
  match t with
  | VObj o => o
  | VArr l => indexed (fun v => v) 0 l
  | VStr s => indexed (fun c => VStr [c]) 0 s
  | _ => []
  end.

(* ================================================================= *)
(** ** [JSON.parse] (ECMA-262, 25.5.1; the grammar of ECMA-404) *)

Definition is_json_ws (c : N) : bool :=
  (c =? 0x09) || (c =? 0x0A) || (c =? 0x0D) || (c =? 0x20).

Fixpoint skip_ws (s : jsstring) : jsstring :=
  match s with
  | c :: r => if is_json_ws c then skip_ws r else s
  | [] => []
  end.

Definition hex4 (a b c d : N) : option N :=
  match hex_val a, hex_val b, hex_val c, hex_val d with
  | Some x, Some y, Some z, Some w => Some (((x * 16 + y) * 16 + z) * 16 + w)
  | _, _, _, _ => None
  end.

(** The character a one-letter escape stands for. *)
Definition unescape (e : N) : option N :=
  if e =? 0x22 then Some 0x22        (* quotation mark *)
  else if e =? 0x5C then Some 0x5C   (* reverse solidus *)
  else if e =? 0x2F then Some 0x2F   (* solidus *)
  else if e =? 0x62 then Some 0x08   (* b *)
  else if e =? 0x66 then Some 0x0C   (* f *)
  else if e =? 0x6E then Some 0x0A   (* n *)
  else if e =? 0x72 then Some 0x0D   (* r *)
  else if e =? 0x74 then Some 0x09   (* t *)
  else None.

(** The characters of a string literal, after its opening quotation
    mark, and what follows its closing one. *)
Fixpoint parse_chars (s : jsstring) : result (jsstring * jsstring) :=
  match s with
  | [] => Throw SyntaxError
  | c :: r =>
    if c =? 0x22 then Ok ([], r)
    else if c =? 0x5C then
      match r with
      | [] => Throw SyntaxError
      | e :: r1 =>
        if e =? 0x75 then
          match r1 with
          | h1 :: h2 :: h3 :: h4 :: r2 =>
            match hex4 h1 h2 h3 h4 with
            | Some u =>
              '(str, rest) <- parse_chars r2 ;; Ok (u :: str, rest)
            | None => Throw SyntaxError
            end
          | _ => Throw SyntaxError
          end
        else
          match unescape e with
          | Some u => '(str, rest) <- parse_chars r1 ;; Ok (u :: str, rest)
          | None => Throw SyntaxError
          end
      end
    else if c <? 0x20 then Throw SyntaxError
    else '(str, rest) <- parse_chars r ;; Ok (c :: str, rest)
  end.

Fixpoint strip_prefix (p s : jsstring) : option jsstring :=
  match p, s with
  | [], _ => Some s
  | x :: p', y :: s' => if x =? y then strip_prefix p' s' else None
  | _ :: _, [] => None
  end.

(** The integer part: [0], or a non-zero digit and more digits. *)
Definition parse_int (s : jsstring) : result (N * jsstring) :=
  match s with
  | c :: r =>
    if c =? 0x30 then Ok (0, r)
    else if is_digit c then let '(v, _, rest) := digits s 0 0 in Ok (v, rest)
    else Throw SyntaxError
  | [] => Throw SyntaxError
  end.

(** The fraction, if there is one: a point and at least one digit.  The
    result is the mantissa with the fraction digits appended, and their
    number. *)
Definition parse_frac (m : N) (s : jsstring) : result (N * nat * jsstring) :=
  match s with
  | c :: r =>
    if c =? 0x2E then
      match digits r m 0 with
      | (_, O, _) => Throw SyntaxError
      | (v, n, rest) => Ok (v, n, rest)
      end
    else Ok (m, O, s)
  | [] => Ok (m, O, s)
  end.

(** The exponent, if there is one: [e] or [E], a sign or none, and at
    least one digit. *)
Definition parse_exp (s : jsstring) : result (Z * jsstring) :=
  match s with
  | c :: r =>
    if (c =? 0x65) || (c =? 0x45) then
      let '(neg, r1) :=
        match r with
        | d :: r' => if d =? 0x2D then (true, r')
                     else if d =? 0x2B then (false, r')
                     else (false, r)
        | [] => (false, r)
        end in
      match digits r1 0 0 with
      | (_, O, _) => Throw SyntaxError
      | (v, _, rest) => Ok (if neg then (- Z.of_N v)%Z else Z.of_N v, rest)
      end
    else Ok (0%Z, s)
  | [] => Ok (0%Z, s)
  end.

Definition parse_number (s : jsstring) : result (number * jsstring) :=
  let '(neg, s1) :=
    match s with
    | c :: r => if c =? 0x2D then (true, r) else (false, s)
    | [] => (false, s)
    end in
  '(i, s2) <- parse_int s1 ;;
  '(m, n, s3) <- parse_frac i s2 ;;
  '(e, s4) <- parse_exp s3 ;;
  Ok (mkNumber neg m (e - Z.of_nat n)%Z, s4).

(** The outcome of a parsing function: a value and the rest of the text,
    a syntax error, or not enough fuel. *)
Inductive parsed :=
| Parsed (v : value) (rest : jsstring)
| Invalid
| Exhausted.

Definition of_result {A} (f : A -> value) (r : result (A * jsstring))
  : parsed :=
  match r with
  | Ok (a, rest) => Parsed (f a) rest
  | Throw _ => Invalid
  end.

Definition parse_scalar (s : jsstring) : parsed :=
  match s with
  | [] => Invalid
  | c :: r =>
    if c =? 0x22 then of_result VStr (parse_chars r)
    else
      match strip_prefix (lit "true") s with
      | Some rest => Parsed (VBool true) rest
      | None =>
        match strip_prefix (lit "false") s with
        | Some rest => Parsed (VBool false) rest
        | None =>
          match strip_prefix (lit "null") s with
          | Some rest => Parsed VNull rest
          | None => of_result VNum (parse_number s)
          end
        end
      end
  end.

(** [parse_value] reads one value, [parse_elements] the elements of an
    array after its opening bracket and [parse_members] the members of
    an object after its opening brace. *)
Fixpoint parse_value (fuel : nat) (s : jsstring) {struct fuel} : parsed :=
  match fuel with
  | O => Exhausted
  | S f =>
    match skip_ws s with
    | [] => Invalid
    | c :: r =>
      if c =? 0x5B then
        match skip_ws r with
        | d :: r' =>
          if d =? 0x5D then Parsed (VArr []) r' else parse_elements f r []
        | [] => Invalid
        end
      else if c =? 0x7B then
        match skip_ws r with
        | d :: r' =>
          if d =? 0x7D then Parsed (VObj []) r' else parse_members f r []
        | [] => Invalid
        end
      else parse_scalar (c :: r)
    end
  end
with parse_elements (fuel : nat) (s : jsstring) (acc : list value)
                    {struct fuel} : parsed :=
  match fuel with
  | O => Exhausted
  | S f =>
    match parse_value f s with
    | Parsed v rest =>
      match skip_ws rest with
      | c :: r =>
        if c =? 0x2C then parse_elements f r (v :: acc)
        else if c =? 0x5D then Parsed (VArr (rev (v :: acc))) r
        else Invalid
      | [] => Invalid
      end
    | Invalid => Invalid
    | Exhausted => Exhausted
    end
  end
with parse_members (fuel : nat) (s : jsstring) (acc : object)
                   {struct fuel} : parsed :=
  match fuel with
  | O => Exhausted
  | S f =>
    match skip_ws s with
    | c :: r =>
      if c =? 0x22 then
        match parse_chars r with
        | Ok (key, rest) =>
          match skip_ws rest with
          | d :: r1 =>
            if d =? 0x3A then
              match parse_value f r1 with
              | Parsed v rest1 =>
                match skip_ws rest1 with
                | e :: r2 =>
                  if e =? 0x2C then parse_members f r2 (obj_set key v acc)
                  else if e =? 0x7D then Parsed (VObj (obj_set key v acc)) r2
                  else Invalid
                | [] => Invalid
                end
              | Invalid => Invalid
              | Exhausted => Exhausted
              end
            else Invalid
          | [] => Invalid
          end
        | Throw _ => Invalid
        end
      else Invalid
    | [] => Invalid
    end
  end.

(** [JSON.parse(text)].  The fuel is enough for every text
    ([JSON_parse_fuel] below), so [RangeError] is never thrown. *)
Definition JSON_parse (text : jsstring) : result value :=
  match parse_value (2 * List.length text + 1) text with
  | Parsed v rest => if is_empty (skip_ws rest) then Ok v else Throw SyntaxError
  | Invalid => Throw SyntaxError
  | Exhausted => Throw RangeError
  end.

(** A literal in which the apostrophe stands for the quotation mark. *)
Definition litq (s : string) : jsstring :=
  List.map (fun c => if c =? 0x27 then 0x22 else c) (lit s).

(* ================================================================= *)
(** ** [JSON.stringify] of a task list (ECMA-262, 25.5.2) *)

(** A lower-case hexadecimal digit. *)
Definition hex_lower (n : N) : N := if n <? 10 then 0x30 + n else 0x57 + n.

(** UnicodeEscape: a reverse solidus, [u] and four hexadecimal digits. *)
Definition unicode_escape (c : N) : jsstring :=
  [0x5C; 0x75; hex_lower (c / 4096); hex_lower ((c / 256) mod 16);
   hex_lower ((c / 16) mod 16); hex_lower (c mod 16)].

(** The one-letter escapes of QuoteJSONString. *)
Definition short_escape (c : N) : option N :=
  if c =? 0x08 then Some 0x62
  else if c =? 0x09 then Some 0x74
  else if c =? 0x0A then Some 0x6E
  else if c =? 0x0C then Some 0x66
  else if c =? 0x0D then Some 0x72
  else if c =? 0x22 then Some 0x22
  else if c =? 0x5C then Some 0x5C
  else None.

(** The body of QuoteJSONString, code point by code point: a control
    character and a surrogate that has no partner are escaped, a
    surrogate pair and every other character are copied. *)
Fixpoint quote_body (s : jsstring) : jsstring :=
  match s with
  | [] => []
  | c :: r =>
    match short_escape c with
    | Some e => 0x5C :: e :: quote_body r
    | None =>
      if c <? 0x20 then unicode_escape c ++ quote_body r
      else if is_high_surrogate c then
        match r with
        | d :: r' =>
          if is_low_surrogate d then c :: d :: quote_body r'
          else unicode_escape c ++ quote_body r
        | [] => unicode_escape c
        end
      else if is_low_surrogate c then unicode_escape c ++ quote_body r
      else c :: quote_body r
    end
  end.

(** QuoteJSONString *)
Definition quote (s : jsstring) : jsstring := 0x22 :: quote_body s ++ [0x22].

Fixpoint join (sep : jsstring) (l : list jsstring) : jsstring :=
  match l with
  | [] => []
  | [x] => x
  | x :: r => x ++ sep ++ join sep r
  end.

(** SerializeJSONObject of a task: the properties in creation order. *)
Definition stringify_todo (t : Todo) : jsstring :=
  [0x7B]
    ++ quote (lit "id") ++ [0x3A] ++ quote (id t) ++ [0x2C]
    ++ quote (lit "title") ++ [0x3A] ++ quote (title t) ++ [0x2C]
    ++ quote (lit "completed") ++ [0x3A]
    ++ (if completed t then lit "true" else lit "false") ++ [0x2C]
    ++ quote (lit "createdAt") ++ [0x3A] ++ quote (createdAt t)
    ++ [0x7D].

(** [JSON.stringify(todos)] *)
Definition JSON_stringify (todos : list Todo) : jsstring :=
  [0x5B] ++ join [0x2C] (List.map stringify_todo todos) ++ [0x5D].

(** The object a task is at run time. *)
Definition todo_value (t : Todo) : value :=
  VObj [(lit "id", VStr (id t)); (lit "title", VStr (title t));
        (lit "completed", VBool (completed t));
        (lit "createdAt", VStr (createdAt t))].

(* ================================================================= *)
(** ** The cookie store behind [document.cookie] *)

(** The cookies that the page sees, in the order in which
    [document.cookie] lists them: each a name and a value, the one set
    last at the end.  The name of a cookie may be empty.  The cookies
    are those of the path [/], the one [setCookie] writes to. *)
Definition jar := list (jsstring * jsstring).

(** The platform of a page: the longest cookie its browser stores; the
    clock, which gives [expires.toUTCString()] for an expiry the given
    number of days ahead; and, as a browser holds a bounded number of
    cookies, which cookies of a store it drops when one more is
    stored. *)
Record platform := mkPlatform {
  cookie_limit : nat;
  utc_string_after : N -> jsstring;
  evicted : jar -> jsstring * jsstring -> bool
}.

(** A cookie as [document.cookie] shows it: [name=value], and the value
    alone when the name is empty. *)
Definition cookie_pair (c : jsstring * jsstring) : jsstring :=
  if is_empty (fst c) then snd c else fst c ++ [0x3D] ++ snd c.

(** The value read from [document.cookie]. *)
Definition document_cookie (j : jar) : jsstring :=
  join (lit "; ") (List.map cookie_pair j).

Fixpoint take_until (sep : N) (s : jsstring) : jsstring :=
  match s with
  | [] => []
  | c :: r => if c =? sep then [] else c :: take_until sep r
  end.

Fixpoint drop_until (sep : N) (s : jsstring) : option jsstring :=
  match s with
  | [] => None
  | c :: r => if c =? sep then Some r else drop_until sep r
  end.

Definition is_wsp (c : N) : bool := (c =? 0x20) || (c =? 0x09).

Fixpoint drop_wsp (s : jsstring) : jsstring :=
  match s with
  | c :: r => if is_wsp c then drop_wsp r else s
  | [] => []
  end.

Definition trim_wsp (s : jsstring) : jsstring :=
  rev (drop_wsp (rev (drop_wsp s))).

(** Deleting the cookie of a name. *)
Definition jar_remove (name : jsstring) (j : jar) : jar :=
  List.filter (fun c => negb (string_eqb (fst c) name)) j.

(** Storing a cookie: the cookie of that name, if there is one, goes,
    and so do the cookies that the browser drops to make room; the new
    one is the last of the list. *)
Definition jar_put (p : platform) (name v : jsstring) (j : jar) : jar :=
  List.filter (fun c => negb (evicted p j c)) (jar_remove name j)
  ++ [(name, v)].

(** The cookie that a text [name=value] stands for: the name and the
    value, split at the first equals sign and trimmed of spaces and
    tabs; with no equals sign, the text is the value of a cookie with an
    empty name. *)
Definition cookie_of (pair : jsstring) : jsstring * jsstring :=
  match drop_until 0x3D pair with
  | Some r => (trim_wsp (take_until 0x3D pair), trim_wsp r)
  | None => ([], trim_wsp pair)
  end.

(** The control characters, the tab apart. *)
Definition is_control (c : N) : bool :=
  ((c <? 0x20) && negb (c =? 0x09)) || (c =? 0x7F).

Definition lower (c : N) : N :=
  if (0x41 <=? c) && (c <=? 0x5A) then c + 0x20 else c.

(** [s] starts with [pre], a text in lower case, whatever the case of
    the letters of [s]. *)
Fixpoint starts_with (pre s : jsstring) : bool :=
  match pre, s with
  | [], _ => true
  | a :: pre', b :: s' => (lower b =? a) && starts_with pre' s'
  | _ :: _, [] => false
  end.

(** The cookies that a browser refuses from a script that gives no
    [Secure] attribute: those with a control character in the name or
    the value, and those whose name (the value, when there is no name)
    starts with [__Secure-] or [__Host-]. *)
Definition refused (name v : jsstring) : bool :=
  existsb is_control name || existsb is_control v
  || starts_with (lit "__secure-") (if is_empty name then v else name)
  || starts_with (lit "__host-") (if is_empty name then v else name).

(** An assignment to [document.cookie], as browsers read it: the text
    before the first semicolon gives the cookie.  A text with neither
    name nor value is ignored, and so are a cookie that is refused and
    a cookie whose name and value together are longer than the limit
    (the texts of this program are ASCII, one octet for each code
    unit).  Of the attributes after the semicolon, the expiry time
    counts: [lapsed] tells that it does not lie ahead of the clock of
    the browser, and the assignment then deletes the cookie of that
    name.  The other attributes are not looked at: the assignments are
    those of [setCookie], with the path [/] and nothing else. *)
Definition document_cookie_set (p : platform) (lapsed : bool)
           (text : jsstring) (j : jar) : jar :=
  let c := cookie_of (take_until 0x3B text) in
  if is_empty (fst c) && is_empty (snd c) then j
  else if refused (fst c) (snd c) then j
  else if (cookie_limit p <? List.length (fst c) + List.length (snd c))%nat
  then j
  else if lapsed then jar_remove (fst c) j
  else jar_put p (fst c) (snd c) j.

Definition cons_first (c : N) (l : list jsstring) : list jsstring :=
  match l with
  | p :: ps => (c :: p) :: ps
  | [] => [[c]]
  end.

(** [s.split(sep)] for a separator of one code unit. *)
Fixpoint split_char (sep : N) (s : jsstring) : list jsstring :=
  match s with
  | [] => [[]]
  | c :: r =>
    if c =? sep then [] :: split_char sep r
    else cons_first c (split_char sep r)
  end.

(** The cookies that a text of [document.cookie] lists: one for each
    piece between semicolons, the empty pieces left out. *)
Definition store_of (doc : jsstring) : jar :=
  List.filter (fun c => negb (is_empty (fst c) && is_empty (snd c)))
              (List.map cookie_of (split_char 0x3B doc)).

(** [s.split(sep)] for a separator of two code units. *)
Fixpoint split_pair (c1 c2 : N) (s : jsstring) : list jsstring :=
  match s with
  | [] => [[]]
  | c :: r =>
    match r with
    | d :: r' =>
      if (c =? c1) && (d =? c2) then [] :: split_pair c1 c2 r'
      else cons_first c (split_pair c1 c2 r)
    | [] => [[c]]
    end
  end.

(* ================================================================= *)
(** ** The persistence codec of [src/App.tsx] *)

Definition COOKIE_NAME : jsstring := lit "react_todo_list".
Definition COOKIE_MAX_AGE_DAYS : N := 30.

(** [setCookie]; it throws when [encodeURIComponent] does.  The expiry
    time is the time of the clock and [days] days: it lies ahead unless
    [days] is 0. *)
Definition setCookie (p : platform) (name v : jsstring) (days : N) (j : jar)
  : result jar :=
  enc <- encodeURIComponent v ;;
  Ok (document_cookie_set p (days =? 0)
        (name ++ [0x3D] ++ enc ++ lit ";expires=" ++ utc_string_after p days
              ++ lit ";path=/")
        j).

(** The loop of [getCookie]. *)
Fixpoint find_cookie (name : jsstring) (cookies : list jsstring)
  : result (option jsstring) :=
  match cookies with
  | [] => Ok None
  | cookie :: more =>
    match split_char 0x3D cookie with
    | key :: rest =>
      if string_eqb key name then
        v <- decodeURIComponent (join [0x3D] rest) ;; Ok (Some v)
      else find_cookie name more
    | [] => find_cookie name more
    end
  end.

(** [getCookie]; [None] is [null]. *)
Definition getCookie (name : jsstring) (doc_cookie : jsstring)
  : result (option jsstring) :=
  let cookies :=
    if is_empty doc_cookie then [] else split_pair 0x3B 0x20 doc_cookie in
  find_cookie name cookies.

(** [t.completed]: reading a property of [null] throws; only an object
    can have a property of that name. *)
Definition get_completed (t : value) : result (option value) :=
  match t with
  | VNull => Throw TypeError
  | VObj o => Ok (lookup (lit "completed") o)
  | _ => Ok None
  end.

(** [{ ...t, completed: Boolean(t.completed) }] *)
Definition coerce_completed (t : value) : result value :=
  c <- get_completed t ;;
  Ok (VObj (obj_set (lit "completed") (VBool (to_boolean c)) (spread t))).

(** [array.map(f)] for a callback that may throw. *)
Fixpoint map_result {A B} (f : A -> result B) (l : list A) : result (list B) :=
  match l with
  | [] => Ok []
  | x :: r => y <- f x ;; ys <- map_result f r ;; Ok (y :: ys)
  end.

(** The [try] block of [loadTodosFromCookie]. *)
Definition loadTodosFromCookie_try (doc_cookie : jsstring)
  : result (list value) :=
  raw <- getCookie COOKIE_NAME doc_cookie ;;
  match raw with
  | None => Ok []
  | Some raw =>
    if is_empty raw then Ok []
    else
      parsed <- JSON_parse raw ;;
      match parsed with
      | VArr l => map_result coerce_completed l
      | _ => Ok []
      end
  end.

(** [loadTodosFromCookie]: whatever is thrown is caught. *)
Definition loadTodosFromCookie (doc_cookie : jsstring) : list value :=
  match loadTodosFromCookie_try doc_cookie with
  | Ok l => l
  | Throw _ => []
  end.

(** [saveTodosToCookie] *)
Definition saveTodosToCookie (p : platform) (todos : list Todo) (j : jar)
  : result jar :=
  setCookie p COOKIE_NAME (JSON_stringify todos) COOKIE_MAX_AGE_DAYS j.


(* ================================================================= *)
(** ** Predicates of the statements *)

Definition ids (l : list Todo) : list jsstring := List.map id l.

(** Every [Add] of the sequence is given an id that no task of the list
    has at that moment. *)
Fixpoint fresh_ids (ops : list op) (s : AppState) : Prop :=
  match ops with
  | [] => True
  | o :: more =>
    match o with
    | Add _ uuid _ => ~ In uuid (ids (todos s))
    | _ => True
    end /\ fresh_ids more (apply_op o s)
  end.

(** No title is empty or made of white space only. *)
Definition titled (l : list Todo) : Prop :=
  Forall (fun t => blank (title t) = false) l.

(** [Subseq a b]: [a] is [b] with some elements left out, the others in
    the order of [b]. *)
Inductive Subseq {A : Type} : list A -> list A -> Prop :=
| Subseq_nil : Subseq [] []
| Subseq_keep x a b : Subseq a b -> Subseq (x :: a) (x :: b)
| Subseq_drop x a b : Subseq a b -> Subseq a (x :: b).

(** The tasks of a list are well-formed strings throughout. *)
Definition wf_todo (t : Todo) : Prop :=
  wf_string (id t) /\ wf_string (title t) /\ wf_string (createdAt t).

(** The cookie written for a task list fits the limit of the platform:
    the name and the encoded text together are no longer than it. *)
Definition fits (p : platform) (todos : list Todo) : bool :=
  match encodeURIComponent (JSON_stringify todos) with
  | Ok enc => (List.length COOKIE_NAME + List.length enc <=? cookie_limit p)%nat
  | Throw _ => false
  end.

(** The code unit [c] occurs in [s]. *)
Definition has (c : N) (s : jsstring) : bool := existsb (fun x => x =? c) s.

(** No name of the store holds a semicolon or an equals sign, no value
    holds a semicolon, and no cookie has neither name nor value: what
    [document_cookie_set] lets in. *)
Definition jar_ok (j : jar) : Prop :=
  Forall (fun c => has 0x3B (fst c) = false /\ has 0x3D (fst c) = false
                   /\ has 0x3B (snd c) = false
                   /\ is_empty (fst c) && is_empty (snd c) = false)
         j.

(** The name under which [getCookie] reads a cookie of the list of
    [document.cookie], and the value it reads: what is before the first
    equals sign of the cookie as it is listed, and what is after it. *)
Definition listed_key (c : jsstring * jsstring) : jsstring :=
  take_until 0x3D (cookie_pair c).

Definition listed_value (c : jsstring * jsstring) : jsstring :=
  match drop_until 0x3D (cookie_pair c) with
  | Some r => r
  | None => []
  end.

(** The value of the first cookie of the store that is listed under the
    name. *)
Fixpoint jar_find (name : jsstring) (j : jar) : option jsstring :=
  match j with
  | [] => None
  | c :: r =>
    if string_eqb (listed_key c) name then Some (listed_value c)
    else jar_find name r
  end.

(** Some cookie of the store is listed under the name. *)
Definition listed (name : jsstring) (j : jar) : bool :=
  existsb (fun c => string_eqb (listed_key c) name) j.


(** A name for a cookie: letters, digits and underscores, at least
    one. *)
Definition name_char (c : N) : bool :=
  is_alpha c || is_digit c || (c =? 0x5F).

Definition name_ok (name : jsstring) : bool :=
  negb (is_empty name) && forallb name_char name.

(** [encodeURIComponent] does not throw on [s]. *)
Definition encodable (s : jsstring) : Prop :=
  exists e, encodeURIComponent s = Ok e.

Definition ascii_only (s : jsstring) : bool := forallb (fun c => c <? 0x80) s.

(** The alphabet of an encoded text. *)
Definition uri_char (c : N) : bool := uri_unescaped c || (c =? 0x25).

(* ================================================================= *)
(** ** The rest of the component *)

(** The Escape key in the edit field (lines 192-195). *)
Definition cancelEdit (s : AppState) : AppState :=
  setEditingTitle [] (setEditingId None s).

(** [disabled={todos.length === activeCount}] of the button that clears
    the completed tasks (line 165). *)
Definition clearDisabled (s : AppState) : bool :=
  Nat.eqb (List.length (todos s)) (activeCount s).

(** [filteredTodos.length === 0], the condition of the line that says
    that there is no task (line 173). *)
Definition showsEmpty (s : AppState) : bool :=
  Nat.eqb (List.length (filteredTodos s)) 0.



(** Every title is as [trim] leaves it. *)
Definition all_trimmed (l : list Todo) : Prop :=
  Forall (fun t => trim (title t) = title t) l.



(* ================================================================= *)
(** ** Sample data *)

Definition task_A : Todo :=
  mkTodo (lit "a") (lit "A") true (lit "2026-01-01T09:00:00.000Z").
Definition task_B : Todo :=
  mkTodo (lit "b") (lit "B") false (lit "2026-01-02T09:00:00.000Z").
Definition task_C : Todo :=
  mkTodo (lit "c") (lit "C") true (lit "2026-01-03T09:00:00.000Z").

Definition empty_app : AppState := mkApp [] [] None [] FAll.
Definition sample_app : AppState :=
  mkApp [task_A; task_B; task_C] [] None [] FAll.

Definition sample_uuid : jsstring :=
  lit "3b241101-e2bb-4255-8caf-4136c566a962".
Definition sample_now : jsstring := lit "2026-11-02T10:00:00.000Z".

(** A browser that stores cookies of up to 4096 octets, with a clock;
    when it holds 180 cookies and one more comes, the 30 oldest go. *)
Definition sample_platform : platform :=
  mkPlatform 4096 (fun _ => lit "Wed, 02 Dec 2026 10:00:00 GMT")
             (fun j c =>
                (180 <=? List.length j)%nat
                && existsb (fun d => string_eqb (fst d) (fst c))
                           (firstn 30 j)).


(** What [document.cookie] shows on a page with two cookies, one of
    them with an empty name. *)
Definition sample_doc : jsstring := lit "theme=dark; visited".

(** What it shows on a page with a cookie with an empty name whose
    value is the name of the cookie of the task list. *)
Definition shadow_doc : jsstring := lit "lang=fr; react_todo_list".



(** A task with an empty title, and the cookie of the list that holds
    it alone, written the way [saveTodosToCookie] writes cookies. *)
Definition untitled_task : Todo :=
  mkTodo (lit "1") [] false (lit "2026-01-01T09:00:00.000Z").

Definition untitled_cookie : jsstring :=
  lit "react_todo_list=%5B%7B%22id%22%3A%221%22%2C%22title%22%3A%22%22%2C"
  ++ lit "%22completed%22%3Afalse%2C"
  ++ lit "%22createdAt%22%3A%222026-01-01T09%3A00%3A00.000Z%22%7D%5D".

(** Two tasks with the same id, and the cookie of the list of the two. *)
Definition twin_A : Todo :=
  mkTodo (lit "1") (lit "A") false (lit "2026-01-01T09:00:00.000Z").
Definition twin_B : Todo :=
  mkTodo (lit "1") (lit "B") true (lit "2026-01-02T09:00:00.000Z").

Definition twins_cookie : jsstring :=
  lit "react_todo_list=%5B%7B%22id%22%3A%221%22%2C%22title%22%3A%22A%22%2C"
  ++ lit "%22completed%22%3Afalse%2C"
  ++ lit "%22createdAt%22%3A%222026-01-01T09%3A00%3A00.000Z%22%7D%2C"
  ++ lit "%7B%22id%22%3A%221%22%2C%22title%22%3A%22B%22%2C"
  ++ lit "%22completed%22%3Atrue%2C"
  ++ lit "%22createdAt%22%3A%222026-01-02T09%3A00%3A00.000Z%22%7D%5D".

(** A task whose title has 4100 letters. *)
Definition long_task : Todo :=
  mkTodo sample_uuid (repeat 0x61 4100) false sample_now.

(* ================================================================= *)
(** * Properties of the task store and of the view projection *)

(** Boolean comparisons in the hypotheses, as propositions. *)
Ltac bools :=
  repeat match goal with
         | H : _ && _ = true |- _ => apply andb_true_iff in H; destruct H
         | H : _ || _ = false |- _ => apply orb_false_iff in H; destruct H
         | H : (_ <=? _) = true |- _ => apply N.leb_le in H
         | H : (_ <=? _) = false |- _ => apply N.leb_gt in H
         | H : (_ <? _) = true |- _ => apply N.ltb_lt in H
         | H : (_ <? _) = false |- _ => apply N.ltb_ge in H
         | H : (_ =? _) = true |- _ => apply N.eqb_eq in H
         | H : (_ =? _) = false |- _ => apply N.eqb_neq in H
         end.

(** Division and remainder by a constant, for [lia]. *)
Ltac Zify.zify_post_hook ::= Z.to_euclidean_division_equations.

Section Strings.

Lemma string_eqb_eq (a b : jsstring) : string_eqb a b = true <-> a = b.
Proof.
  revert b; induction a as [|x a IH]; intros [|y b]; simpl;
    try (split; [discriminate | congruence]); [tauto|].
  rewrite andb_true_iff, N.eqb_eq, IH.
  split; [intros [-> ->]; reflexivity | intros H; inversion H; auto].
Qed.

Lemma string_eqb_refl (a : jsstring) : string_eqb a a = true.
Proof. apply string_eqb_eq; reflexivity. Qed.

Lemma string_eqb_neq (a b : jsstring) : string_eqb a b = false <-> a <> b.
Proof.
  rewrite <- string_eqb_eq. destruct (string_eqb a b); split; congruence.
Qed.

Lemma trim_start_nil (s : jsstring) : is_empty (trim_start s) = blank s.
Proof.
  induction s as [|c s IH]; simpl; [reflexivity|].
  destruct (is_white_space c); simpl; auto.
Qed.

Lemma trim_start_head (s r : jsstring) (c : N) :
  trim_start s = c :: r -> is_white_space c = false.
Proof.
  induction s as [|x s IH]; simpl; [discriminate|].
  destruct (is_white_space x) eqn:E; [exact IH|].
  intros H; inversion H; subst; exact E.
Qed.

Lemma blank_app (a b : jsstring) : blank (a ++ b) = blank a && blank b.
Proof. apply forallb_app. Qed.

Lemma blank_rev (s : jsstring) : blank (rev s) = blank s.
Proof.
  induction s as [|c s IH]; simpl; [reflexivity|].
  rewrite blank_app, IH; simpl. rewrite andb_true_r, andb_comm; reflexivity.
Qed.

Lemma is_empty_rev (s : jsstring) : is_empty (rev s) = is_empty s.
Proof.
  destruct s as [|c s]; simpl; [reflexivity|].
  destruct (rev s); reflexivity.
Qed.

Lemma blank_trim_start (s : jsstring) : blank (trim_start s) = blank s.
Proof.
  induction s as [|c s IH]; simpl; [reflexivity|].
  destruct (is_white_space c) eqn:E; simpl; [exact IH|].
  rewrite E; reflexivity.
Qed.

(** Trimming leaves nothing exactly when the string is white space. *)
Lemma trim_empty_blank (s : jsstring) : is_empty (trim s) = blank s.
Proof.
  unfold trim, trim_end.
  rewrite is_empty_rev, trim_start_nil, blank_rev.
  apply blank_trim_start.
Qed.

(** [trimStart] takes white space off the front. *)
Lemma trim_start_split (s : jsstring) :
  exists a, s = a ++ trim_start s /\ blank a = true.
Proof.
  induction s as [|c s (a & H & B)]; [exists []; split; reflexivity|].
  simpl. destruct (is_white_space c) eqn:E.
  - exists (c :: a). split; [simpl; f_equal; exact H|].
    simpl. rewrite E. exact B.
  - exists []. split; reflexivity.
Qed.

(** [trim] takes white space off both ends, and nothing else. *)
Lemma trim_split (s : jsstring) :
  exists a b, s = a ++ trim s ++ b /\ blank a = true /\ blank b = true.
Proof.
  destruct (trim_start_split s) as (a & Ha & Ba).
  destruct (trim_start_split (rev (trim_start s))) as (b & Hb & Bb).
  exists a, (rev b). split; [|split; [exact Ba|rewrite blank_rev; exact Bb]].
  transitivity (a ++ trim_start s); [exact Ha|]. f_equal.
  unfold trim, trim_end.
  rewrite <- rev_app_distr, <- Hb, rev_involutive. reflexivity.
Qed.

(** What [trim] leaves does not end with white space. *)
Lemma trim_last (s r : jsstring) (c : N) :
  trim s = r ++ [c] -> is_white_space c = false.
Proof.
  intros H. unfold trim, trim_end in H.
  apply (f_equal (@rev N)) in H.
  rewrite rev_involutive, rev_app_distr in H. simpl in H.
  exact (trim_start_head _ _ _ H).
Qed.

(** What [trim] leaves does not start with white space. *)
Lemma trim_first (s r : jsstring) (c : N) :
  trim s = c :: r -> is_white_space c = false.
Proof.
  intros H.
  destruct (trim_start_split (rev (trim_start s))) as (b & Hb & _).
  apply (f_equal (@rev N)) in Hb.
  rewrite rev_involutive, rev_app_distr in Hb.
  fold (trim_end (trim_start s)) in Hb. fold (trim s) in Hb.
  rewrite H in Hb. simpl in Hb.
  exact (trim_start_head _ _ _ Hb).
Qed.

(** What trimming leaves is empty or not white space only. *)
Lemma trim_not_blank (s : jsstring) :
  is_empty (trim s) = false -> blank (trim s) = false.
Proof.
  unfold trim, trim_end. rewrite is_empty_rev, blank_rev.
  destruct (trim_start (rev (trim_start s))) as [|c r] eqn:E;
    [discriminate|].
  intros _. simpl. rewrite (trim_start_head _ _ _ E); reflexivity.
Qed.

End Strings.

Section Store.

Lemma nth_error_map_some {A B} (f : A -> B) (l : list A) (n : nat) (x : A) :
  nth_error l n = Some x -> nth_error (List.map f l) n = Some (f x).
Proof. intros H. rewrite nth_error_map, H. reflexivity. Qed.

Lemma map_id_when {A} (f : A -> A) (l : list A) :
  (forall x, In x l -> f x = x) -> List.map f l = l.
Proof.
  induction l as [|x l IH]; simpl; intros H; [reflexivity|].
  rewrite H by auto. rewrite IH by auto. reflexivity.
Qed.

Lemma ids_map (f : Todo -> Todo) (l : list Todo) :
  (forall t, id (f t) = id t) -> ids (List.map f l) = ids l.
Proof.
  intros H. unfold ids. rewrite map_map. apply map_ext. exact H.
Qed.

Lemma Subseq_filter {A} (p : A -> bool) (l : list A) :
  Subseq (List.filter p l) l.
Proof.
  induction l as [|x l IH]; simpl; [constructor|].
  destruct (p x); constructor; exact IH.
Qed.


Lemma Subseq_In {A} (a b : list A) (x : A) : Subseq a b -> In x a -> In x b.
Proof.
  induction 1; simpl; auto.
  intros [->|H']; auto.
Qed.

Lemma Subseq_NoDup {A} (a b : list A) : Subseq a b -> NoDup b -> NoDup a.
Proof.
  induction 1 as [|x a b S IH|x a b S IH]; intros N; [constructor| |].
  - inversion N as [|? ? Nx Nb]; subst. constructor; auto.
    intros Hx. apply Nx. eapply Subseq_In; eauto.
  - inversion N; auto.
Qed.

Lemma Subseq_map {A B} (f : A -> B) (a b : list A) :
  Subseq a b -> Subseq (List.map f a) (List.map f b).
Proof. induction 1; simpl; constructor; assumption. Qed.

Lemma NoDup_ids_filter (p : Todo -> bool) (l : list Todo) :
  NoDup (ids l) -> NoDup (ids (List.filter p l)).
Proof.
  apply Subseq_NoDup. apply Subseq_map. apply Subseq_filter.
Qed.

Lemma filter_partition_perm {A} (p : A -> bool) (l : list A) :
  Permutation (List.filter (fun x => negb (p x)) l ++ List.filter p l) l.
Proof.
  induction l as [|x l IH]; simpl; [constructor|].
  destruct (p x); simpl.
  - apply Permutation_sym, Permutation_cons_app, Permutation_sym, IH.
  - constructor; exact IH.
Qed.

(** Each operation keeps the ids of the list distinct. *)
Lemma apply_op_NoDup (o : op) (s : AppState) :
  NoDup (ids (todos s)) ->
  match o with
  | Add _ uuid _ => ~ In uuid (ids (todos s))
  | _ => True
  end ->
  NoDup (ids (todos (apply_op o s))).
Proof.
  intros N F. destruct o as [t uuid now|i|i t|i|]; simpl.
  - unfold handleAddTodo; simpl.
    destruct (is_empty (trim t)); simpl; [exact N|].
    constructor; assumption.
  - rewrite ids_map; [exact N|]. intros t. destruct (string_eqb (id t) i); reflexivity.
  - unfold handleEditSubmit; simpl.
    destruct (is_empty (trim t)); simpl; [exact N|].
    rewrite ids_map; [exact N|].
    intros x. destruct (string_eqb (id x) i); reflexivity.
  - apply NoDup_ids_filter, N.
  - apply NoDup_ids_filter, N.
Qed.

(** Each operation keeps the titles of the list non-blank. *)
Lemma apply_op_titled (o : op) (s : AppState) :
  titled (todos s) -> titled (todos (apply_op o s)).
Proof.
  unfold titled. intros T.
  destruct o as [t uuid now|i|i t|i|]; simpl.
  - unfold handleAddTodo; simpl.
    destruct (is_empty (trim t)) eqn:E; simpl; [exact T|].
    constructor; [|exact T]. simpl. apply trim_not_blank, E.
  - apply Forall_map. eapply Forall_impl; [|exact T].
    intros x Hx. destruct (string_eqb (id x) i); exact Hx.
  - unfold handleEditSubmit; simpl.
    destruct (is_empty (trim t)) eqn:E; simpl; [exact T|].
    apply Forall_map. eapply Forall_impl; [|exact T].
    intros x Hx. destruct (string_eqb (id x) i); [|exact Hx].
    simpl. apply trim_not_blank, E.
  - apply Forall_forall. intros x Hx. apply filter_In in Hx.
    rewrite Forall_forall in T. apply T, Hx.
  - apply Forall_forall. intros x Hx. apply filter_In in Hx.
    rewrite Forall_forall in T. apply T, Hx.
Qed.

Lemma not_in_ids (i : jsstring) (l : list Todo) :
  ~ In i (ids l) -> forall t, In t l -> string_eqb (id t) i = false.
Proof.
  intros H t Ht. apply string_eqb_neq. intros <-.
  apply H. unfold ids. apply in_map, Ht.
Qed.

End Store.

(** C3: along every sequence of add, toggle, rename, remove and
    clearCompleted operations that starts from a list with pairwise
    distinct ids, and in which every add is given an id that is not in
    the list yet, the ids of the list stay pairwise distinct. *)
Theorem ids_stay_unique (ops : list op) (s : AppState) :
  NoDup (ids (todos s)) ->
  fresh_ids ops s ->
  NoDup (ids (todos (run ops s))).
Proof.
  revert s. induction ops as [|o ops IH]; intros s N F; simpl; [exact N|].
  destruct F as [Fo Fr].
  apply IH; [|exact Fr].
  apply apply_op_NoDup; assumption.
Qed.

Lemma ids_stay_unique_witness :
  NoDup (ids (todos (run [Add (lit " Buy milk ") sample_uuid sample_now;
                          Add (lit "Call Bob") (lit "u2") sample_now;
                          Toggle sample_uuid;
                          Rename (lit "u2") (lit "Call Alice");
                          Add (lit "  ") (lit "u3") sample_now;
                          ClearCompleted;
                          Remove (lit "u2")]
                         empty_app))).
Proof.
  apply ids_stay_unique.
  - constructor.
  - vm_compute. repeat split; try (intros [H|H]; [discriminate H|]);
      try (destruct H as [H|H]; [discriminate H|]); auto.
Defined.

(** C5: [add(title)] trims the title, which takes the white space off
    its two ends and nothing else; when nothing is left (the title is
    empty or white space only) the list is unchanged; otherwise one
    task with the trimmed title, the generated id, [completed = false]
    and the current time as [createdAt] is put in front of the list,
    whose tasks stay as they were, in their order.  So adding
    ["  Buy milk "] to the list of A, B and C puts a task with the title
    ["Buy milk"] in front of A, B and C. *)
Theorem add_spec (s : AppState) (t uuid now : jsstring) :
  todos (apply_op (Add t uuid now) s)
  = (if is_empty (trim t) then todos s
     else mkTodo uuid (trim t) false now :: todos s)
  /\ is_empty (trim t) = blank t
  /\ trim (lit "") = [] /\ trim (lit "   ") = []
  /\ (exists a b, t = a ++ trim t ++ b /\ blank a = true /\ blank b = true)
  /\ (forall c r, trim t = c :: r -> is_white_space c = false)
  /\ (forall c r, trim t = r ++ [c] -> is_white_space c = false)
  /\ todos (apply_op (Add (lit "  Buy milk ") uuid now) sample_app)
     = [mkTodo uuid (lit "Buy milk") false now; task_A; task_B; task_C]
  /\ todos (apply_op (Add (lit "   ") uuid now) sample_app)
     = [task_A; task_B; task_C].
Proof.
  split; [|split; [apply trim_empty_blank | split; [reflexivity|]]].
  - simpl. unfold handleAddTodo; simpl.
    destruct (is_empty (trim t)); reflexivity.
  - split; [reflexivity|]. split; [apply trim_split|].
    split; [intros c r; apply trim_first|].
    split; [intros c r; apply trim_last|].
    split; reflexivity.
Qed.

Lemma add_spec_witness :
  todos (apply_op (Add (lit "  Buy milk ") sample_uuid sample_now) sample_app)
  = [mkTodo sample_uuid (lit "Buy milk") false sample_now;
     task_A; task_B; task_C]
  /\ todos (apply_op (Add (lit "   ") sample_uuid sample_now) sample_app)
     = todos sample_app.
Proof.
  split.
  - rewrite (proj1 (add_spec sample_app (lit "  Buy milk ")
                             sample_uuid sample_now)).
    reflexivity.
  - rewrite (proj1 (add_spec sample_app (lit "   ") sample_uuid sample_now)).
    reflexivity.
Defined.

(** C6: [toggle(id)] keeps the length and the order of the list; a task
    with that id has its [completed] flag negated and its other fields
    kept, every other task is kept; the list is unchanged when no task
    has that id; toggling twice gives the list back. *)
Theorem toggle_spec (s : AppState) (i : jsstring) :
  let s' := apply_op (Toggle i) s in
  List.length (todos s') = List.length (todos s)
  /\ (forall n t, nth_error (todos s) n = Some t ->
        exists t', nth_error (todos s') n = Some t'
                   /\ id t' = id t /\ title t' = title t
                   /\ createdAt t' = createdAt t
                   /\ (id t = i -> completed t' = negb (completed t))
                   /\ (id t <> i -> t' = t))
  /\ (~ In i (ids (todos s)) -> todos s' = todos s)
  /\ todos (apply_op (Toggle i) s') = todos s.
Proof.
  simpl. repeat split.
  - apply length_map.
  - intros n t H.
    eexists. split; [apply nth_error_map_some, H|].
    destruct (string_eqb (id t) i) eqn:E; simpl.
    + repeat split; auto. intros N. apply string_eqb_eq in E. contradiction.
    + repeat split; auto. intros N. apply string_eqb_neq in E. contradiction.
  - intros H. apply map_id_when. intros t Ht.
    rewrite (not_in_ids _ _ H t Ht). reflexivity.
  - rewrite map_map. apply map_id_when. intros t _.
    destruct (string_eqb (id t) i) eqn:E; simpl; rewrite E; [|reflexivity].
    destruct t as [a b c d]; unfold flip_completed; simpl.
    rewrite negb_involutive. reflexivity.
Qed.

Lemma toggle_spec_witness :
  nth_error (todos (apply_op (Toggle (lit "b")) sample_app)) 1
  = Some (mkTodo (lit "b") (lit "B") true (lit "2026-01-02T09:00:00.000Z"))
  /\ nth_error (todos (apply_op (Toggle (lit "b")) sample_app)) 0 = Some task_A
  /\ todos (apply_op (Toggle (lit "z")) sample_app) = todos sample_app.
Proof.
  destruct (toggle_spec sample_app (lit "b")) as (_ & H & _ & _).
  destruct (H 1%nat task_B eq_refl) as (t1 & E1 & I1 & T1 & C1 & F1 & _).
  destruct (H 0%nat task_A eq_refl) as (t0 & E0 & _ & _ & _ & _ & K0).
  split; [|split].
  - rewrite E1. destruct t1 as [a b c d]; simpl in *.
    rewrite I1, T1, C1, (F1 eq_refl). reflexivity.
  - rewrite E0, K0; [reflexivity|]. vm_compute. discriminate.
  - apply (proj1 (proj2 (proj2 (toggle_spec sample_app (lit "z"))))).
    vm_compute. intros [H1|[H1|[H1|[]]]]; discriminate H1.
Defined.

(** C7: [rename(id, newTitle)] trims the new title; when nothing is left
    the list is unchanged; otherwise the list keeps its length and
    order, a task with that id gets the trimmed title and keeps its id,
    [completed] and [createdAt], every other task is kept; the list is
    unchanged when no task has that id. *)
Theorem rename_spec (s : AppState) (i v : jsstring) :
  let s' := apply_op (Rename i v) s in
  (is_empty (trim v) = true -> todos s' = todos s)
  /\ List.length (todos s') = List.length (todos s)
  /\ (is_empty (trim v) = false ->
      forall n t, nth_error (todos s) n = Some t ->
        exists t', nth_error (todos s') n = Some t'
                   /\ id t' = id t /\ completed t' = completed t
                   /\ createdAt t' = createdAt t
                   /\ (id t = i -> title t' = trim v)
                   /\ (id t <> i -> t' = t))
  /\ (~ In i (ids (todos s)) -> todos s' = todos s)
  /\ is_empty (trim v) = blank v.
Proof.
  simpl. unfold handleEditSubmit; simpl.
  split; [|split; [|split; [|split]]].
  - intros E; rewrite E; reflexivity.
  - destruct (is_empty (trim v)); simpl; [reflexivity|apply length_map].
  - intros E; rewrite E; simpl. intros n t H.
    eexists. split; [apply nth_error_map_some, H|].
    destruct (string_eqb (id t) i) eqn:Ei; simpl.
    + repeat split; auto. intros N. apply string_eqb_eq in Ei. contradiction.
    + repeat split; auto. intros N. apply string_eqb_neq in Ei. contradiction.
  - intros H. destruct (is_empty (trim v)); simpl; [reflexivity|].
    apply map_id_when. intros t Ht.
    rewrite (not_in_ids _ _ H t Ht). reflexivity.
  - apply trim_empty_blank.
Qed.

Lemma rename_spec_witness :
  todos (apply_op (Rename (lit "b") (lit "  ")) sample_app) = todos sample_app
  /\ nth_error (todos (apply_op (Rename (lit "b") (lit " Bee ")) sample_app)) 1
     = Some (mkTodo (lit "b") (lit "Bee") false
                    (lit "2026-01-02T09:00:00.000Z"))
  /\ todos (apply_op (Rename (lit "z") (lit "Zed")) sample_app)
     = todos sample_app.
Proof.
  split; [|split].
  - apply (proj1 (rename_spec sample_app (lit "b") (lit "  "))). reflexivity.
  - destruct (rename_spec sample_app (lit "b") (lit " Bee ")) as (_ & _ & H & _).
    destruct (H eq_refl 1%nat task_B eq_refl) as (t1 & E1 & I1 & C1 & D1 & T1 & _).
    rewrite E1. destruct t1 as [a b c d]; simpl in *.
    rewrite I1, C1, D1, (T1 eq_refl). reflexivity.
  - apply (proj1 (proj2 (proj2 (proj2
             (rename_spec sample_app (lit "z") (lit "Zed")))))).
    vm_compute. intros [H1|[H1|[H1|[]]]]; discriminate H1.
Defined.

(** C8: [clearCompleted()] leaves exactly the tasks whose [completed]
    flag is false, each as it was and in the order of the list; from
    A completed, B active, C completed it leaves B alone. *)
Theorem clearCompleted_spec (s : AppState) :
  let s' := apply_op ClearCompleted s in
  (forall t, In t (todos s') <-> In t (todos s) /\ completed t = false)
  /\ Subseq (todos s') (todos s)
  /\ List.length (todos s') = activeCount s
  /\ todos (apply_op ClearCompleted sample_app) = [task_B].
Proof.
  simpl. split; [|split; [|split]].
  - intros t. rewrite filter_In, negb_true_iff. reflexivity.
  - apply Subseq_filter.
  - reflexivity.
  - reflexivity.
Qed.

(** C9: the filter ['all'] shows the list as it is; ['active'] shows
    exactly the tasks with [completed = false] and ['completed'] exactly
    those with [completed = true], both in the order of the list; the two
    together are a rearrangement of the whole list. *)
Theorem filteredTodos_spec (s : AppState) :
  filteredTodos (setFilter FAll s) = todos s
  /\ (forall t, In t (filteredTodos (setFilter FActive s))
                <-> In t (todos s) /\ completed t = false)
  /\ (forall t, In t (filteredTodos (setFilter FCompleted s))
                <-> In t (todos s) /\ completed t = true)
  /\ Subseq (filteredTodos (setFilter FActive s)) (todos s)
  /\ Subseq (filteredTodos (setFilter FCompleted s)) (todos s)
  /\ Permutation (filteredTodos (setFilter FActive s)
                    ++ filteredTodos (setFilter FCompleted s))
                 (todos s).
Proof.
  unfold filteredTodos; simpl.
  split; [reflexivity|].
  split; [intros t; rewrite filter_In, negb_true_iff; reflexivity|].
  split; [intros t; rewrite filter_In; reflexivity|].
  repeat split.
  - apply Subseq_filter.
  - apply Subseq_filter.
  - apply (filter_partition_perm completed).
Qed.

(* ================================================================= *)
(** * Properties of the persistence codec *)

Section Parser.

Lemma skip_ws_length (s : jsstring) :
  (List.length (skip_ws s) <= List.length s)%nat.
Proof.
  induction s as [|c s IH]; simpl; [lia|].
  destruct (is_json_ws c); simpl; lia.
Qed.

Lemma skip_ws_cons (s r : jsstring) (c : N) :
  skip_ws s = c :: r -> (List.length r < List.length s)%nat.
Proof.
  intros H. pose proof (skip_ws_length s) as L. rewrite H in L.
  simpl in L. lia.
Qed.

Lemma bind_Ok {A B} (c : result A) (k : A -> result B) (b : B) :
  bind c k = Ok b -> exists a, c = Ok a /\ k a = Ok b.
Proof. destruct c; simpl; [eauto|discriminate]. Qed.

Lemma parse_chars_length (n : nat) :
  forall s str rest,
    (List.length s <= n)%nat ->
    parse_chars s = Ok (str, rest) ->
    (List.length rest < List.length s)%nat.
Proof.
  induction n as [|n IH]; intros s str rest L H.
  - destruct s; [discriminate H|simpl in L; lia].
  - destruct s as [|c r]; [discriminate H|]. simpl in H, L.
    destruct (c =? 0x22).
    { inversion H; subst; simpl; lia. }
    destruct (c =? 0x5C).
    + destruct r as [|e r1]; [discriminate H|].
      destruct (e =? 0x75).
      * destruct r1 as [|h1 [|h2 [|h3 [|h4 r2]]]]; try discriminate H.
        destruct (hex4 h1 h2 h3 h4); [|discriminate H].
        apply bind_Ok in H. destruct H as ([str' rest'] & H1 & H2).
        inversion H2; subst.
        apply IH in H1; simpl in *; lia.
      * destruct (unescape e); [|discriminate H].
        apply bind_Ok in H. destruct H as ([str' rest'] & H1 & H2).
        inversion H2; subst.
        apply IH in H1; simpl in *; lia.
    + destruct (c <? 0x20); [discriminate H|].
      apply bind_Ok in H. destruct H as ([str' rest'] & H1 & H2).
      inversion H2; subst.
      apply IH in H1; simpl in *; lia.
Qed.

Lemma digits_length (s : jsstring) :
  forall acc n v m rest,
    digits s acc n = (v, m, rest) ->
    (List.length rest + m = List.length s + n)%nat /\ (n <= m)%nat.
Proof.
  induction s as [|c s IH]; simpl; intros acc n v m rest H.
  - inversion H; subst; split; reflexivity.
  - destruct (is_digit c).
    + apply IH in H. lia.
    + inversion H; subst; simpl; lia.
Qed.

Lemma strip_prefix_length (p s rest : jsstring) :
  strip_prefix p s = Some rest ->
  List.length s = (List.length p + List.length rest)%nat.
Proof.
  revert s; induction p as [|x p IH]; intros s H; simpl in H.
  - inversion H; reflexivity.
  - destruct s as [|y s]; [discriminate H|].
    destruct (x =? y); [|discriminate H].
    apply IH in H. simpl. lia.
Qed.

Lemma parse_number_length (s : jsstring) (x : number) (rest : jsstring) :
  parse_number s = Ok (x, rest) -> (List.length rest < List.length s)%nat.
Proof.
  unfold parse_number. intros H.
  set (pre := match s with
              | c :: r => if c =? 0x2D then (true, r) else (false, s)
              | [] => (false, s)
              end) in H.
  assert (Lp : (List.length (snd pre) <= List.length s)%nat).
  { subst pre. destruct s as [|c r]; simpl; [lia|].
    destruct (c =? 0x2D); simpl; lia. }
  destruct pre as [neg s1]. simpl in Lp.
  apply bind_Ok in H. destruct H as ([i s2] & Hi & H).
  apply bind_Ok in H. destruct H as ([[m n] s3] & Hf & H).
  apply bind_Ok in H. destruct H as ([e s4] & He & H).
  inversion H; subst; clear H.
  assert (L2 : (List.length s2 < List.length s1)%nat).
  { unfold parse_int in Hi. destruct s1 as [|c r]; [discriminate Hi|].
    destruct (c =? 0x30); [inversion Hi; subst; simpl; lia|].
    destruct (is_digit c) eqn:D; [|discriminate Hi].
    destruct (digits (c :: r) 0 0) as [[v k] rr] eqn:E.
    inversion Hi; subst.
    simpl in E. rewrite D in E. apply digits_length in E. simpl. lia. }
  assert (L3 : (List.length s3 <= List.length s2)%nat).
  { unfold parse_frac in Hf. destruct s2 as [|c r]; [inversion Hf; subst; lia|].
    destruct (c =? 0x2E); [|inversion Hf; subst; lia].
    destruct (digits r i 0) as [[v k] rr] eqn:E.
    apply digits_length in E.
    destruct k; [discriminate Hf|]. inversion Hf; subst. simpl. lia. }
  assert (L4 : (List.length rest <= List.length s3)%nat).
  { unfold parse_exp in He. destruct s3 as [|c r]; [inversion He; subst; lia|].
    destruct ((c =? 0x65) || (c =? 0x45)); [|inversion He; subst; lia].
    set (sg := match r with
               | d :: r' => if d =? 0x2D then (true, r')
                            else if d =? 0x2B then (false, r')
                            else (false, r)
               | [] => (false, r)
               end) in He.
    assert (Ls : (List.length (snd sg) <= List.length r)%nat).
    { subst sg. destruct r as [|d r']; simpl; [lia|].
      destruct (d =? 0x2D); simpl; [lia|]. destruct (d =? 0x2B); simpl; lia. }
    destruct sg as [ng r1]. simpl in Ls.
    destruct (digits r1 0 0) as [[v k] rr] eqn:E.
    apply digits_length in E.
    destruct k; [discriminate He|]. inversion He; subst. simpl. lia. }
  lia.
Qed.

Lemma parse_scalar_length (s : jsstring) (v : value) (rest : jsstring) :
  parse_scalar s = Parsed v rest -> (List.length rest < List.length s)%nat.
Proof.
  unfold parse_scalar. destruct s as [|c r]; [discriminate|].
  destruct (c =? 0x22).
  { destruct (parse_chars r) as [[str rr]|e] eqn:E; simpl; [|discriminate].
    intros H; inversion H; subst.
    apply (parse_chars_length _ _ _ _ (le_n _)) in E. simpl; lia. }
  destruct (strip_prefix (lit "true") (c :: r)) eqn:E1.
  { intros H; inversion H; subst. apply strip_prefix_length in E1.
    rewrite E1. simpl. lia. }
  destruct (strip_prefix (lit "false") (c :: r)) eqn:E2.
  { intros H; inversion H; subst. apply strip_prefix_length in E2.
    rewrite E2. simpl. lia. }
  destruct (strip_prefix (lit "null") (c :: r)) eqn:E3.
  { intros H; inversion H; subst. apply strip_prefix_length in E3.
    rewrite E3. simpl. lia. }
  destruct (parse_number (c :: r)) as [[x rr]|e] eqn:E; simpl; [|discriminate].
  intros H; inversion H; subst. apply parse_number_length in E. exact E.
Qed.

Lemma parse_scalar_fuel (s : jsstring) : parse_scalar s <> Exhausted.
Proof.
  unfold parse_scalar. destruct s as [|c r]; [discriminate|].
  destruct (c =? 0x22).
  { destruct (parse_chars r) as [[? ?]|?]; discriminate. }
  destruct (strip_prefix (lit "true") (c :: r)); [discriminate|].
  destruct (strip_prefix (lit "false") (c :: r)); [discriminate|].
  destruct (strip_prefix (lit "null") (c :: r)); [discriminate|].
  destruct (parse_number (c :: r)) as [[? ?]|?]; discriminate.
Qed.

Lemma parse_value_S (f : nat) (s : jsstring) :
  parse_value (S f) s =
  match skip_ws s with
  | [] => Invalid
  | c :: r =>
    if c =? 0x5B then
      match skip_ws r with
      | d :: r' =>
        if d =? 0x5D then Parsed (VArr []) r' else parse_elements f r []
      | [] => Invalid
      end
    else if c =? 0x7B then
      match skip_ws r with
      | d :: r' =>
        if d =? 0x7D then Parsed (VObj []) r' else parse_members f r []
      | [] => Invalid
      end
    else parse_scalar (c :: r)
  end.
Proof. reflexivity. Qed.

Lemma parse_elements_S (f : nat) (s : jsstring) (acc : list value) :
  parse_elements (S f) s acc =
  match parse_value f s with
  | Parsed v rest =>
    match skip_ws rest with
    | c :: r =>
      if c =? 0x2C then parse_elements f r (v :: acc)
      else if c =? 0x5D then Parsed (VArr (rev (v :: acc))) r
      else Invalid
    | [] => Invalid
    end
  | Invalid => Invalid
  | Exhausted => Exhausted
  end.
Proof. reflexivity. Qed.

Lemma parse_members_S (f : nat) (s : jsstring) (acc : object) :
  parse_members (S f) s acc =
  match skip_ws s with
  | c :: r =>
    if c =? 0x22 then
      match parse_chars r with
      | Ok (key, rest) =>
        match skip_ws rest with
        | d :: r1 =>
          if d =? 0x3A then
            match parse_value f r1 with
            | Parsed v rest1 =>
              match skip_ws rest1 with
              | e :: r2 =>
                if e =? 0x2C then parse_members f r2 (obj_set key v acc)
                else if e =? 0x7D then Parsed (VObj (obj_set key v acc)) r2
                else Invalid
              | [] => Invalid
              end
            | Invalid => Invalid
            | Exhausted => Exhausted
            end
          else Invalid
        | [] => Invalid
        end
      | Throw _ => Invalid
      end
    else Invalid
  | [] => Invalid
  end.
Proof. reflexivity. Qed.

Lemma parse_length (f : nat) :
  (forall s v rest, parse_value f s = Parsed v rest ->
                    (List.length rest < List.length s)%nat)
  /\ (forall s acc v rest, parse_elements f s acc = Parsed v rest ->
                           (List.length rest < List.length s)%nat)
  /\ (forall s acc v rest, parse_members f s acc = Parsed v rest ->
                           (List.length rest < List.length s)%nat).
Proof.
  induction f as [|f (IHv & IHe & IHm)]; [repeat split; discriminate|].
  split; [|split].
  - intros s v rest H. rewrite parse_value_S in H.
    destruct (skip_ws s) as [|c r] eqn:Es; [discriminate H|].
    pose proof (skip_ws_cons _ _ _ Es) as Lr.
    pose proof (skip_ws_length s) as Ls. rewrite Es in Ls.
    destruct (c =? 0x5B).
    { destruct (skip_ws r) as [|d r'] eqn:Er; [discriminate H|].
      pose proof (skip_ws_cons _ _ _ Er).
      destruct (d =? 0x5D); [inversion H; subst; lia|].
      apply IHe in H. lia. }
    destruct (c =? 0x7B).
    { destruct (skip_ws r) as [|d r'] eqn:Er; [discriminate H|].
      pose proof (skip_ws_cons _ _ _ Er).
      destruct (d =? 0x7D); [inversion H; subst; lia|].
      apply IHm in H. lia. }
    apply parse_scalar_length in H. lia.
  - intros s acc v rest H. rewrite parse_elements_S in H.
    destruct (parse_value f s) as [v1 rest1| |] eqn:Ev; try discriminate H.
    apply IHv in Ev.
    destruct (skip_ws rest1) as [|c r] eqn:Es; [discriminate H|].
    pose proof (skip_ws_cons _ _ _ Es).
    destruct (c =? 0x2C); [apply IHe in H; lia|].
    destruct (c =? 0x5D); [inversion H; subst; lia|discriminate H].
  - intros s acc v rest H. rewrite parse_members_S in H.
    destruct (skip_ws s) as [|c r] eqn:Es; [discriminate H|].
    pose proof (skip_ws_cons _ _ _ Es).
    destruct (c =? 0x22); [|discriminate H].
    destruct (parse_chars r) as [[key rest0]|e] eqn:Ek; [|discriminate H].
    apply (parse_chars_length _ _ _ _ (le_n _)) in Ek.
    destruct (skip_ws rest0) as [|d r1] eqn:E0; [discriminate H|].
    pose proof (skip_ws_cons _ _ _ E0).
    destruct (d =? 0x3A); [|discriminate H].
    destruct (parse_value f r1) as [v1 rest1| |] eqn:Ev; try discriminate H.
    apply IHv in Ev.
    destruct (skip_ws rest1) as [|e r2] eqn:E1; [discriminate H|].
    pose proof (skip_ws_cons _ _ _ E1).
    destruct (e =? 0x2C); [apply IHm in H; lia|].
    destruct (e =? 0x7D); [inversion H; subst; lia|discriminate H].
Qed.

Lemma parse_fuel (f : nat) :
  (forall s, (2 * List.length s + 1 <= f)%nat ->
             parse_value f s <> Exhausted)
  /\ (forall s acc, (2 * List.length s + 2 <= f)%nat ->
                    parse_elements f s acc <> Exhausted)
  /\ (forall s acc, (2 * List.length s + 2 <= f)%nat ->
                    parse_members f s acc <> Exhausted).
Proof.
  induction f as [|f (IHv & IHe & IHm)]; [repeat split; intros; lia|].
  destruct (parse_length f) as (Lv & Le & Lm).
  split; [|split].
  - intros s F. rewrite parse_value_S.
    destruct (skip_ws s) as [|c r] eqn:Es; [discriminate|].
    pose proof (skip_ws_cons _ _ _ Es) as Lr.
    destruct (c =? 0x5B).
    { destruct (skip_ws r) as [|d r'] eqn:Er; [discriminate|].
      destruct (d =? 0x5D); [discriminate|]. apply IHe. lia. }
    destruct (c =? 0x7B).
    { destruct (skip_ws r) as [|d r'] eqn:Er; [discriminate|].
      destruct (d =? 0x7D); [discriminate|]. apply IHm. lia. }
    apply parse_scalar_fuel.
  - intros s acc F. rewrite parse_elements_S.
    destruct (parse_value f s) as [v1 rest1| |] eqn:Ev; [|discriminate|].
    + apply Lv in Ev.
      destruct (skip_ws rest1) as [|c r] eqn:Es; [discriminate|].
      pose proof (skip_ws_cons _ _ _ Es).
      destruct (c =? 0x2C); [apply IHe; lia|].
      destruct (c =? 0x5D); discriminate.
    + exfalso. revert Ev. apply IHv. lia.
  - intros s acc F. rewrite parse_members_S.
    destruct (skip_ws s) as [|c r] eqn:Es; [discriminate|].
    pose proof (skip_ws_cons _ _ _ Es).
    destruct (c =? 0x22); [|discriminate].
    destruct (parse_chars r) as [[key rest0]|e] eqn:Ek; [|discriminate].
    apply (parse_chars_length _ _ _ _ (le_n _)) in Ek.
    destruct (skip_ws rest0) as [|d r1] eqn:E0; [discriminate|].
    pose proof (skip_ws_cons _ _ _ E0).
    destruct (d =? 0x3A); [|discriminate].
    destruct (parse_value f r1) as [v1 rest1| |] eqn:Ev; [|discriminate|].
    + apply Lv in Ev.
      destruct (skip_ws rest1) as [|e r2] eqn:E1; [discriminate|].
      pose proof (skip_ws_cons _ _ _ E1).
      destruct (e =? 0x2C); [apply IHm; lia|].
      destruct (e =? 0x7D); discriminate.
    + exfalso. revert Ev. apply IHv. lia.
Qed.

(** [JSON.parse] never runs out of fuel: its outcome is a value or a
    [SyntaxError]. *)
Lemma JSON_parse_fuel (text : jsstring) :
  JSON_parse text <> Throw RangeError.
Proof.
  unfold JSON_parse.
  destruct (parse_value _ text) as [v rest| |] eqn:E.
  - destruct (is_empty (skip_ws rest)); discriminate.
  - discriminate.
  - exfalso. revert E. apply parse_fuel. lia.
Qed.

End Parser.

Section Objects.

Lemma lookup_replace_same (k : jsstring) (v : value) (o : object) :
  lookup k o <> None -> lookup k (replace_value k v o) = Some v.
Proof.
  induction o as [|[k' v'] o IH]; simpl; [congruence|].
  destruct (string_eqb k' k) eqn:E; simpl; rewrite E; auto.
Qed.

Lemma lookup_replace_other (k k' : jsstring) (v : value) (o : object) :
  k' <> k -> lookup k' (replace_value k v o) = lookup k' o.
Proof.
  intros N. induction o as [|[k0 v0] o IH]; simpl; [reflexivity|].
  destruct (string_eqb k0 k) eqn:E; simpl.
  - apply string_eqb_eq in E; subst k0.
    destruct (string_eqb k k') eqn:E'; [|reflexivity].
    apply string_eqb_eq in E'. congruence.
  - rewrite IH. reflexivity.
Qed.

Lemma lookup_insert_same (i : N) (k : jsstring) (v : value) (o : object) :
  lookup k o = None -> lookup k (insert_index i k v o) = Some v.
Proof.
  induction o as [|[k' v'] o IH]; simpl; intros H.
  - rewrite string_eqb_refl; reflexivity.
  - destruct (string_eqb k' k) eqn:E; [discriminate H|].
    destruct (array_index k') as [j|]; [destruct (j <? i)|]; simpl;
      rewrite ?E, ?string_eqb_refl; auto.
Qed.

Lemma lookup_insert_other (i : N) (k k' : jsstring) (v : value)
      (o : object) :
  k' <> k -> lookup k' (insert_index i k v o) = lookup k' o.
Proof.
  intros N. apply string_eqb_neq in N.
  assert (N' : string_eqb k k' = false).
  { apply string_eqb_neq. apply string_eqb_neq in N. congruence. }
  induction o as [|[k0 v0] o IH]; simpl; [rewrite N'; reflexivity|].
  destruct (array_index k0) as [j|]; [destruct (j <? i)|]; simpl;
    rewrite ?IH, ?N'; reflexivity.
Qed.

Lemma lookup_app (k : jsstring) (a b : object) :
  lookup k (a ++ b) = match lookup k a with
                      | Some v => Some v
                      | None => lookup k b
                      end.
Proof.
  induction a as [|[k' v'] a IH]; simpl; [reflexivity|].
  destruct (string_eqb k' k); auto.
Qed.

(** A property that was set is there. *)
Lemma lookup_obj_set_same (k : jsstring) (v : value) (o : object) :
  lookup k (obj_set k v o) = Some v.
Proof.
  unfold obj_set. destruct (lookup k o) eqn:E.
  - apply lookup_replace_same. congruence.
  - destruct (array_index k).
    + apply lookup_insert_same, E.
    + rewrite lookup_app, E. simpl. rewrite string_eqb_refl. reflexivity.
Qed.

(** Setting a property leaves the others as they are. *)
Lemma lookup_obj_set_other (k k' : jsstring) (v : value) (o : object) :
  k' <> k -> lookup k' (obj_set k v o) = lookup k' o.
Proof.
  intros N. unfold obj_set. destruct (lookup k o) eqn:E.
  - apply lookup_replace_other, N.
  - destruct (array_index k).
    + apply lookup_insert_other, N.
    + rewrite lookup_app. destruct (lookup k' o); [reflexivity|].
      simpl. destruct (string_eqb k k') eqn:E'; [|reflexivity].
      apply string_eqb_eq in E'. congruence.
Qed.

Lemma coerce_completed_null : coerce_completed VNull = Throw TypeError.
Proof. reflexivity. Qed.

Lemma coerce_completed_ok (t : value) :
  t <> VNull ->
  exists c, get_completed t = Ok c
            /\ coerce_completed t
               = Ok (VObj (obj_set (lit "completed") (VBool (to_boolean c))
                                   (spread t))).
Proof.
  intros N. unfold coerce_completed.
  destruct t; try congruence; simpl; eexists; split; reflexivity.
Qed.

Lemma map_result_throw {A B} (f : A -> result B) (l : list A) (x : A)
      (e : exn) :
  In x l -> f x = Throw e -> exists e', map_result f l = Throw e'.
Proof.
  induction l as [|y l IH]; simpl; [tauto|].
  intros [->|H] E.
  - rewrite E. simpl. eauto.
  - destruct (f y); simpl; [|eauto].
    destruct (IH H E) as [e' ->]. simpl. eauto.
Qed.

Lemma map_result_ok {A B} (f : A -> result B) (l : list A) :
  (forall x, In x l -> exists y, f x = Ok y) ->
  exists l', map_result f l = Ok l'
             /\ List.length l' = List.length l
             /\ forall n x, nth_error l n = Some x ->
                  exists y, f x = Ok y /\ nth_error l' n = Some y.
Proof.
  induction l as [|x l IH]; simpl; intros H.
  - exists []. repeat split; auto. intros [|n] x; discriminate.
  - destruct (H x (or_introl eq_refl)) as [y Ey].
    destruct IH as (l' & E & L & Nth); [intros; apply H; auto|].
    exists (y :: l'). rewrite Ey, E. simpl. repeat split; [lia|].
    intros [|n] z Hz; simpl in *.
    + inversion Hz; subst. eauto.
    + apply Nth, Hz.
Qed.

End Objects.

(** C1 (as amended): [load()] never throws.  It returns the empty
    sequence when the cookie is absent or empty, when its text cannot
    be decoded or is not JSON, when the JSON is not an array, and when
    the array has a [null] element.  For every other array it returns
    one record for each element, whatever the element is: the
    properties of the element, with [completed] set to
    [Boolean(element.completed)], which is [false] when the element has
    no such property. *)
Theorem load_spec (doc_cookie : jsstring) :
  let load := loadTodosFromCookie doc_cookie in
  (forall e, loadTodosFromCookie_try doc_cookie = Throw e -> load = [])
  /\ (forall e, getCookie COOKIE_NAME doc_cookie = Throw e -> load = [])
  /\ (getCookie COOKIE_NAME doc_cookie = Ok None -> load = [])
  /\ (forall raw, getCookie COOKIE_NAME doc_cookie = Ok (Some raw) ->
        (raw = [] -> load = [])
        /\ (forall e, JSON_parse raw = Throw e -> load = [])
        /\ (forall v, JSON_parse raw = Ok v ->
                      (forall l, v <> VArr l) -> load = [])
        /\ (forall l, raw <> [] -> JSON_parse raw = Ok (VArr l) ->
              (In VNull l -> load = [])
              /\ (~ In VNull l ->
                  List.length load = List.length l
                  /\ forall n t, nth_error l n = Some t ->
                       exists c o,
                         get_completed t = Ok c
                         /\ nth_error load n = Some (VObj o)
                         /\ lookup (lit "completed") o
                            = Some (VBool (to_boolean c))
                         /\ (c = None -> lookup (lit "completed") o
                                         = Some (VBool false))
                         /\ forall k, k <> lit "completed" ->
                                      lookup k o = lookup k (spread t))))
  /\ loadTodosFromCookie (lit "react_todo_list=not json") = []
  /\ loadTodosFromCookie (litq "react_todo_list='not json'") = []
  /\ loadTodosFromCookie (litq "react_todo_list=[{'id':'1','title':'x'}]")
     = [VObj [(lit "id", VStr (lit "1")); (lit "title", VStr (lit "x"));
              (lit "completed", VBool false)]].
Proof.
  intros load. subst load. unfold loadTodosFromCookie.
  split; [intros e H; rewrite H; reflexivity|].
  unfold loadTodosFromCookie_try.
  split; [intros e H; rewrite H; reflexivity|].
  split; [intros H; rewrite H; reflexivity|].
  split; [|repeat split; vm_compute; reflexivity].
  intros raw H. rewrite H. simpl.
  destruct raw as [|c0 raw0].
  { simpl. split; [reflexivity|]. split; [reflexivity|].
    split; [reflexivity|]. intros l N. congruence. }
  split; [discriminate|].
  remember (c0 :: raw0) as raw eqn:Eraw.
  replace (is_empty raw) with false by (subst raw; reflexivity).
  split; [intros e P; rewrite P; reflexivity|].
  split.
  { intros v P N. rewrite P. simpl.
    destruct v; try reflexivity. exfalso. eapply N. reflexivity. }
  intros l _ P. rewrite P. simpl. split.
  - intros Hn.
    destruct (map_result_throw coerce_completed l VNull TypeError Hn
                               coerce_completed_null) as [e' ->].
    reflexivity.
  - intros Hn.
    destruct (map_result_ok coerce_completed l) as (l' & E & L & Nth).
    { intros x Hx. destruct (coerce_completed_ok x) as (c & _ & Hc).
      - intros ->. contradiction.
      - eauto. }
    rewrite E. split; [exact L|].
    intros n t Ht. destruct (Nth n t Ht) as (y & Ey & Hy).
    destruct (coerce_completed_ok t) as (c & Hc & Hc').
    { intros ->. apply Hn. eapply nth_error_In, Ht. }
    rewrite Hc' in Ey. inversion Ey; subst y.
    exists c, (obj_set (lit "completed") (VBool (to_boolean c)) (spread t)).
    split; [exact Hc|]. split; [exact Hy|].
    split; [apply lookup_obj_set_same|].
    split; [intros ->; apply lookup_obj_set_same|].
    intros k Hk. apply lookup_obj_set_other, Hk.
Qed.

Lemma load_spec_witness :
  List.length
    (loadTodosFromCookie
       (litq "theme=dark; react_todo_list=[{'id':'1','completed':1},'x']"))
  = 2%nat.
Proof.
  pose (c := litq "theme=dark; react_todo_list=[{'id':'1','completed':1},'x']").
  destruct (load_spec c) as (_ & _ & _ & H & _).
  destruct (H (litq "[{'id':'1','completed':1},'x']") eq_refl)
    as (_ & _ & _ & H').
  destruct (H' [VObj [(lit "id", VStr (lit "1"));
                      (lit "completed", VNum (mkNumber false 1 0))];
                VStr (lit "x")]) as (_ & H'').
  - discriminate.
  - reflexivity.
  - destruct H'' as (L & _).
    + intros [E|[E|[]]]; discriminate E.
    + exact L.
Defined.

(** C1 as it is written fails: an array whose only element is a number,
    which is no task-shaped record, is loaded as a list of one record. *)
Lemma load_unshaped_element :
  JSON_parse (lit "[1]") = Ok (VArr [VNum (mkNumber false 1 0)])
  /\ loadTodosFromCookie (lit "react_todo_list=[1]")
     = [VObj [(lit "completed", VBool false)]]
  /\ loadTodosFromCookie (lit "react_todo_list=[1]") <> [].
Proof.
  split; [reflexivity|]. split; [reflexivity|]. discriminate.
Qed.

Section URI.

#[local] Arguments hex_octet : simpl never.
#[local] Arguments continuation : simpl never.
#[local] Arguments N.ltb : simpl never.
#[local] Arguments N.leb : simpl never.
#[local] Arguments N.eqb : simpl never.
#[local] Arguments utf8_decode2 : simpl never.
#[local] Arguments utf8_decode3 : simpl never.
#[local] Arguments utf8_decode4 : simpl never.










Lemma rmap_Ok {A B} (f : A -> B) (c : result A) (b : B) :
  rmap f c = Ok b -> exists a, c = Ok a /\ b = f a.
Proof.
  destruct c; simpl; [|discriminate].
  intros H; inversion H; eauto.
Qed.


Lemma utf16_pair (c d : N) :
  is_high_surrogate c = true -> is_low_surrogate d = true ->
  utf16 (pair_code_point c d) = [c; d]
  /\ 0x10000 <= pair_code_point c d <= 0x10FFFF.
Proof.
  unfold is_high_surrogate, is_low_surrogate, utf16, pair_code_point.
  intros H L. bools.
  replace (_ <? 65536) with false by (symmetry; apply N.ltb_ge; lia).
  split; [|lia]. f_equal; [lia|f_equal; lia].
Qed.


Lemma encodable_nil : encodable [].
Proof. exists []. reflexivity. Qed.

Lemma encodable_cons (c : N) (r : jsstring) :
  is_high_surrogate c = false -> is_low_surrogate c = false ->
  encodable r -> encodable (c :: r).
Proof.
  intros Hh Hl [e He]. unfold encodable. simpl. rewrite Hh, Hl, He.
  destruct (uri_unescaped c); simpl; eauto.
Qed.

Lemma encodable_pair (c d : N) (r : jsstring) :
  is_high_surrogate c = true -> is_low_surrogate d = true ->
  encodable r -> encodable (c :: d :: r).
Proof.
  intros Hh Hl [e He]. unfold encodable. simpl. rewrite Hh, Hl, He.
  replace (uri_unescaped c) with false; [simpl; eauto|].
  unfold is_high_surrogate in Hh. bools.
  unfold uri_unescaped, is_alpha, is_digit.
  symmetry. repeat (apply orb_false_iff; split);
    try (apply andb_false_iff; right); try apply N.leb_gt;
    try apply N.eqb_neq; lia.
Qed.

Lemma encodable_ascii_app (a b : jsstring) :
  ascii_only a = true -> encodable b -> encodable (a ++ b).
Proof.
  induction a as [|c a IH]; simpl; intros A E; [exact E|].
  apply andb_true_iff in A. destruct A as [Ac Aa]. bools.
  apply encodable_cons; auto.
  - unfold is_high_surrogate. apply andb_false_iff. left.
    apply N.leb_gt. lia.
  - unfold is_low_surrogate. apply andb_false_iff. left.
    apply N.leb_gt. lia.
Qed.

Lemma hex_lower_ascii (n : N) : n < 16 -> hex_lower n < 0x80.
Proof. unfold hex_lower. destruct (n <? 10); lia. Qed.

Lemma unicode_escape_ascii (c : N) :
  c < 0x10000 -> ascii_only (unicode_escape c) = true.
Proof.
  intros H. unfold unicode_escape, ascii_only. simpl.
  repeat (apply andb_true_iff; split); try reflexivity;
    apply N.ltb_lt, hex_lower_ascii; lia.
Qed.

Lemma short_escape_ascii (c e : N) : short_escape c = Some e -> e < 0x80.
Proof.
  unfold short_escape.
  repeat match goal with
         | |- context [if ?b then _ else _] => destruct b
         end; intros H; inversion H; subst; reflexivity.
Qed.

(** What [JSON.stringify] writes for a string can be encoded: it has
    no surrogate without its partner. *)
Lemma encodable_quote_body (n : nat) :
  forall s tail,
    (List.length s <= n)%nat ->
    encodable tail -> encodable (quote_body s ++ tail).
Proof.
  induction n as [|n IH]; intros s tail L E.
  - destruct s; [exact E|simpl in L; lia].
  - destruct s as [|c r]; [exact E|]. simpl in L. simpl quote_body.
    destruct (short_escape c) as [e0|] eqn:Es.
    { apply (encodable_ascii_app [0x5C; e0]).
      - simpl. apply short_escape_ascii in Es. apply N.ltb_lt in Es.
        rewrite Es. reflexivity.
      - apply IH; [lia|exact E]. }
    destruct (c <? 0x20) eqn:Ec; bools.
    { apply (encodable_ascii_app (unicode_escape c) (quote_body r ++ tail)).
      - apply unicode_escape_ascii. lia.
      - apply IH; [lia|exact E]. }
    destruct (is_high_surrogate c) eqn:Eh.
    { assert (c < 0x10000) by (unfold is_high_surrogate in Eh; bools; lia).
      destruct r as [|d r'].
      - apply (encodable_ascii_app (unicode_escape c) tail);
          [apply unicode_escape_ascii; lia|exact E].
      - destruct (is_low_surrogate d) eqn:El.
        + simpl. apply encodable_pair; auto.
          apply IH; [simpl in L; lia|exact E].
        + apply (encodable_ascii_app (unicode_escape c)
                                     (quote_body (d :: r') ++ tail)).
          * apply unicode_escape_ascii. lia.
          * apply IH; [lia|exact E]. }
    destruct (is_low_surrogate c) eqn:El.
    { assert (c < 0x10000) by (unfold is_low_surrogate in El; bools; lia).
      apply (encodable_ascii_app (unicode_escape c) (quote_body r ++ tail)).
      - apply unicode_escape_ascii. lia.
      - apply IH; [lia|exact E]. }
    simpl. apply encodable_cons; auto. apply IH; [lia|exact E].
Qed.

Lemma encodable_quote_app (s tail : jsstring) :
  encodable tail -> encodable (quote s ++ tail).
Proof.
  intros E. unfold quote. simpl. rewrite <- app_assoc.
  apply (encodable_ascii_app [0x22]); [reflexivity|].
  apply (encodable_quote_body _ _ _ (le_n _)).
  apply (encodable_ascii_app [0x22]); [reflexivity|exact E].
Qed.

Lemma encodable_todo (t : Todo) (tail : jsstring) :
  encodable tail -> encodable (stringify_todo t ++ tail).
Proof.
  intros E. unfold stringify_todo. rewrite <- !app_assoc.
  repeat first
         [ apply encodable_quote_app
         | apply encodable_ascii_app;
           [try destruct (completed t); reflexivity|] ].
  exact E.
Qed.

Lemma join_cons_flat_map (t : Todo) (ts : list Todo) :
  join [0x2C] (List.map stringify_todo (t :: ts))
  = stringify_todo t ++ flat_map (fun u => 0x2C :: stringify_todo u) ts.
Proof.
  revert t. induction ts as [|u ts IH]; intros t.
  - simpl. rewrite app_nil_r. reflexivity.
  - change (join [0x2C] (List.map stringify_todo (t :: u :: ts)))
      with (stringify_todo t
              ++ [0x2C] ++ join [0x2C] (List.map stringify_todo (u :: ts))).
    rewrite IH. reflexivity.
Qed.

Lemma JSON_stringify_cons (t : Todo) (ts : list Todo) :
  JSON_stringify (t :: ts)
  = 0x5B :: stringify_todo t
         ++ flat_map (fun u => 0x2C :: stringify_todo u) ts ++ [0x5D].
Proof.
  unfold JSON_stringify. rewrite join_cons_flat_map.
  simpl. rewrite <- app_assoc. reflexivity.
Qed.

Lemma encodable_items (ts : list Todo) (tail : jsstring) :
  encodable tail ->
  encodable (flat_map (fun u => 0x2C :: stringify_todo u) ts ++ tail).
Proof.
  intros E. induction ts as [|u ts IH]; simpl; [exact E|].
  rewrite <- app_assoc.
  apply (encodable_ascii_app [0x2C]); [reflexivity|].
  apply encodable_todo, IH.
Qed.

(** [encodeURIComponent] does not throw on the JSON text of a task
    list. *)
Lemma encodable_stringify (todos : list Todo) :
  encodable (JSON_stringify todos).
Proof.
  destruct todos as [|t ts].
  - exists (lit "%5B%5D"). reflexivity.
  - rewrite JSON_stringify_cons.
    apply (encodable_ascii_app [0x5B]); [reflexivity|].
    apply encodable_todo, encodable_items.
    apply (encodable_ascii_app [0x5D]); [reflexivity|apply encodable_nil].
Qed.

Lemma hex_digit_unescaped (n : N) :
  n < 16 -> uri_unescaped (hex_digit n) = true.
Proof.
  intros H. unfold hex_digit, uri_unescaped, is_alpha, is_digit.
  destruct (n <? 10) eqn:E; bools.
  - replace ((48 <=? 48 + n) && (48 + n <=? 57)) with true
      by (symmetry; apply andb_true_iff; split; apply N.leb_le; lia).
    rewrite orb_true_r. reflexivity.
  - replace ((65 <=? 55 + n) && (55 + n <=? 90)) with true
      by (symmetry; apply andb_true_iff; split; apply N.leb_le; lia).
    reflexivity.
Qed.

Lemma escape_alphabet (octets : list N) :
  Forall (fun b => b < 256) octets -> forallb uri_char (escape octets) = true.
Proof.
  induction 1 as [|b l Hb Hl IH]; [reflexivity|].
  assert (Hu : forall n, n < 16 -> uri_char (hex_digit n) = true)
    by (intros n Hn; unfold uri_char; rewrite hex_digit_unescaped; auto).
  unfold escape in *. simpl. rewrite IH, !Hu; [reflexivity| |].
  - apply N.mod_lt. lia.
  - apply N.Div0.div_lt_upper_bound. lia.
Qed.

Lemma utf8_octets (cp : N) :
  cp <= 0x10FFFF -> Forall (fun b => b < 256) (utf8 cp).
Proof.
  intros H. unfold utf8.
  destruct (cp <? 0x80) eqn:E1; bools; [repeat constructor; lia|].
  destruct (cp <? 0x800) eqn:E2; bools; [repeat constructor; lia|].
  destruct (cp <? 0x10000) eqn:E3; bools; repeat constructor; lia.
Qed.

(** The encoded text is made of letters, digits, the marks
    [_ - . ! ~ * ' ( )] and the percent sign. *)
Lemma encode_alphabet (n : nat) :
  forall s e,
    (List.length s <= n)%nat ->
    wf_string s ->
    encodeURIComponent s = Ok e ->
    forallb uri_char e = true.
Proof.
  induction n as [|n IH]; intros s e L W H.
  - destruct s; [|simpl in L; lia]. inversion H; reflexivity.
  - destruct s as [|c r]; [inversion H; reflexivity|].
    simpl in L. inversion W as [|? ? Wc Wr]; subst. unfold code_unit in Wc.
    simpl in H.
    destruct (uri_unescaped c) eqn:Eu.
    { apply rmap_Ok in H. destruct H as (e' & He & ->).
      simpl. unfold uri_char at 1. rewrite Eu. simpl.
      apply (IH r); auto; lia. }
    destruct (is_high_surrogate c) eqn:Eh.
    { destruct r as [|d r']; [discriminate H|].
      destruct (is_low_surrogate d) eqn:El; [|discriminate H].
      apply rmap_Ok in H. destruct H as (e' & He & ->).
      destruct (utf16_pair c d Eh El) as [P B].
      inversion Wr; subst. simpl in L.
      rewrite forallb_app, escape_alphabet by (apply utf8_octets; lia).
      apply (IH r'); auto; lia. }
    destruct (is_low_surrogate c) eqn:El; [discriminate H|].
    apply rmap_Ok in H. destruct H as (e' & He & ->).
    rewrite forallb_app, escape_alphabet by (apply utf8_octets; lia).
    apply (IH r); auto; lia.
Qed.

Lemma wf_app (a b : jsstring) :
  wf_string a -> wf_string b -> wf_string (a ++ b).
Proof. intros A B. apply Forall_app. split; assumption. Qed.

Lemma ascii_wf (a : jsstring) : ascii_only a = true -> wf_string a.
Proof.
  intros H. apply Forall_forall. intros c Hc.
  unfold ascii_only in H. rewrite forallb_forall in H.
  specialize (H c Hc). bools. unfold code_unit. lia.
Qed.

Lemma wf_quote_body (n : nat) :
  forall s, (List.length s <= n)%nat -> wf_string s ->
            wf_string (quote_body s).
Proof.
  induction n as [|n IH]; intros s L W.
  - destruct s; [constructor|simpl in L; lia].
  - destruct s as [|c r]; [constructor|]. simpl in L.
    inversion W as [|? ? Wc Wr]; subst. unfold code_unit in Wc.
    assert (Wq : wf_string (quote_body r)) by (apply IH; auto; lia).
    assert (Wu : wf_string (unicode_escape c))
      by (apply ascii_wf, unicode_escape_ascii; exact Wc).
    simpl quote_body.
    destruct (short_escape c) as [e0|] eqn:Es.
    { apply short_escape_ascii in Es.
      constructor; [reflexivity|]. constructor; [unfold code_unit; lia|].
      exact Wq. }
    destruct (c <? 0x20); [exact (wf_app (unicode_escape c) _ Wu Wq)|].
    destruct (is_high_surrogate c).
    { destruct r as [|d r']; [exact Wu|].
      destruct (is_low_surrogate d); [|exact (wf_app (unicode_escape c) _ Wu Wq)].
      inversion Wr; subst. constructor; [exact Wc|].
      constructor; [assumption|]. apply IH; [simpl in L; lia|assumption]. }
    destruct (is_low_surrogate c); [exact (wf_app (unicode_escape c) _ Wu Wq)|].
    constructor; assumption.
Qed.

Lemma wf_quote (s : jsstring) : wf_string s -> wf_string (quote s).
Proof.
  intros W. unfold quote. constructor; [reflexivity|].
  apply wf_app; [apply (wf_quote_body _ _ (le_n _) W)|].
  constructor; [reflexivity|constructor].
Qed.

Lemma wf_stringify_todo (t : Todo) :
  wf_todo t -> wf_string (stringify_todo t).
Proof.
  intros (Wi & Wt & Wc). unfold stringify_todo.
  repeat first
         [ apply wf_quote; assumption
         | apply wf_app
         | apply ascii_wf; try destruct (completed t); reflexivity ].
Qed.

Lemma wf_stringify (todos : list Todo) :
  Forall wf_todo todos -> wf_string (JSON_stringify todos).
Proof.
  intros W. unfold JSON_stringify.
  apply wf_app; [apply ascii_wf; reflexivity|].
  apply wf_app; [|apply ascii_wf; reflexivity].
  induction W as [|t ts Wt Wts IH]; [constructor|].
  destruct ts as [|u ts]; [apply wf_stringify_todo, Wt|].
  change (wf_string (stringify_todo t ++ [0x2C]
                       ++ join [0x2C] (List.map stringify_todo (u :: ts)))).
  apply wf_app; [apply wf_stringify_todo, Wt|].
  apply wf_app; [apply ascii_wf; reflexivity|exact IH].
Qed.

End URI.

Section JSON.

#[local] Arguments N.ltb : simpl never.
#[local] Arguments N.leb : simpl never.
#[local] Arguments N.eqb : simpl never.
#[local] Arguments hex4 : simpl never.
#[local] Arguments unescape : simpl never.





















End JSON.

Section Cookies.

Lemma take_until_app (sep : N) (a b : jsstring) :
  has sep a = false -> take_until sep (a ++ sep :: b) = a.
Proof.
  induction a as [|c a IH]; simpl; intros H.
  - rewrite N.eqb_refl. reflexivity.
  - apply orb_false_iff in H. destruct H as [Hc Ha].
    rewrite Hc, IH by exact Ha. reflexivity.
Qed.

Lemma drop_until_app (sep : N) (a b : jsstring) :
  has sep a = false -> drop_until sep (a ++ sep :: b) = Some b.
Proof.
  induction a as [|c a IH]; simpl; intros H.
  - rewrite N.eqb_refl. reflexivity.
  - apply orb_false_iff in H. destruct H as [Hc Ha].
    rewrite Hc, IH by exact Ha. reflexivity.
Qed.

Lemma has_app (c : N) (a b : jsstring) :
  has c (a ++ b) = has c a || has c b.
Proof. apply existsb_app. Qed.

Lemma uri_char_has (c : N) (s : jsstring) :
  uri_char c = false -> forallb uri_char s = true -> has c s = false.
Proof.
  intros Hc. induction s as [|x s IH]; simpl; [reflexivity|].
  intros H. apply andb_true_iff in H. destruct H as [Hx Hs].
  rewrite IH by exact Hs. rewrite orb_false_r.
  destruct (x =? c) eqn:E; [|reflexivity].
  apply N.eqb_eq in E. subst x. congruence.
Qed.

Lemma drop_wsp_id (s : jsstring) :
  has 0x20 s = false -> has 0x09 s = false -> drop_wsp s = s.
Proof.
  destruct s as [|c s]; simpl; [reflexivity|].
  intros A B. apply orb_false_iff in A, B.
  unfold is_wsp. destruct A as [-> _], B as [-> _]. reflexivity.
Qed.

Lemma has_rev (c : N) (s : jsstring) : has c (rev s) = has c s.
Proof.
  induction s as [|x s IH]; simpl; [reflexivity|].
  rewrite has_app, IH. simpl. rewrite orb_false_r. apply orb_comm.
Qed.

Lemma trim_wsp_id (s : jsstring) :
  has 0x20 s = false -> has 0x09 s = false -> trim_wsp s = s.
Proof.
  intros A B. unfold trim_wsp.
  rewrite (drop_wsp_id s A B).
  rewrite drop_wsp_id by (rewrite has_rev; assumption).
  apply rev_involutive.
Qed.

Lemma cookie_of_named (name rest : jsstring) :
  has 0x3D name = false -> has 0x20 name = false -> has 0x09 name = false ->
  cookie_of (name ++ 0x3D :: rest) = (name, trim_wsp rest).
Proof.
  intros N2 N3 N4. unfold cookie_of.
  rewrite drop_until_app, take_until_app by exact N2.
  rewrite (trim_wsp_id name N3 N4). reflexivity.
Qed.

Lemma lower_dash (b : N) : lower b = 0x2D -> b = 0x2D.
Proof.
  unfold lower. destruct ((0x41 <=? b) && (b <=? 0x5A)) eqn:E; [|auto].
  bools. lia.
Qed.

Lemma starts_with_dash (pre s : jsstring) :
  starts_with pre s = true -> has 0x2D pre = true -> has 0x2D s = true.
Proof.
  revert s. induction pre as [|a pre IH]; intros s; [discriminate 2|].
  destruct s as [|b s]; [discriminate 1|]. cbn [starts_with].
  intros H D. apply andb_true_iff in H. destruct H as [Hb Hs].
  change (has 0x2D (a :: pre)) with ((a =? 0x2D) || has 0x2D pre) in D.
  change (has 0x2D (b :: s)) with ((b =? 0x2D) || has 0x2D s).
  apply orb_true_iff in D. destruct D as [D|D].
  - apply N.eqb_eq in D. subst a. apply N.eqb_eq in Hb.
    apply lower_dash in Hb. subst b. reflexivity.
  - rewrite (IH s Hs D). apply orb_true_r.
Qed.

(** A cookie with a name, without a control character and without a
    hyphen in the name, is not refused. *)
Lemma refused_plain (name v : jsstring) :
  existsb is_control name = false -> existsb is_control v = false ->
  is_empty name = false -> has 0x2D name = false ->
  refused name v = false.
Proof.
  intros C1 C2 E D. unfold refused. rewrite C1, C2, E. cbn [orb].
  apply orb_false_iff. split.
  - destruct (starts_with (lit "__secure-") name) eqn:S; [|reflexivity].
    rewrite (starts_with_dash _ _ S eq_refl) in D. discriminate D.
  - destruct (starts_with (lit "__host-") name) eqn:S; [|reflexivity].
    rewrite (starts_with_dash _ _ S eq_refl) in D. discriminate D.
Qed.

(** What the browser makes of the assignment of [setCookie]. *)
Lemma document_cookie_set_put (p : platform) (lapsed : bool)
      (name enc attrs : jsstring) (j : jar) :
  has 0x3B name = false -> has 0x3D name = false ->
  has 0x20 name = false -> has 0x09 name = false ->
  is_empty name = false -> refused name enc = false ->
  forallb uri_char enc = true ->
  document_cookie_set p lapsed (name ++ [0x3D] ++ enc ++ 0x3B :: attrs) j
  = if (cookie_limit p <? List.length name + List.length enc)%nat then j
    else if lapsed then jar_remove name j
    else jar_put p name enc j.
Proof.
  intros N1 N2 N3 N4 Ne R A. unfold document_cookie_set. cbv zeta.
  replace (name ++ [0x3D] ++ enc ++ 0x3B :: attrs)
    with ((name ++ [0x3D] ++ enc) ++ 0x3B :: attrs)
    by (rewrite <- !app_assoc; reflexivity).
  rewrite take_until_app.
  2:{ rewrite !has_app, N1. simpl.
      apply uri_char_has; [reflexivity|exact A]. }
  change (name ++ [0x3D] ++ enc) with (name ++ 0x3D :: enc).
  rewrite cookie_of_named by assumption. cbn [fst snd].
  rewrite trim_wsp_id by (apply uri_char_has; [reflexivity|exact A]).
  rewrite Ne, R. reflexivity.
Qed.

Lemma split_pair_piece (p : jsstring) :
  has 0x3B p = false -> split_pair 0x3B 0x20 p = [p].
Proof.
  induction p as [|c p IH]; simpl; [reflexivity|].
  intros H. apply orb_false_iff in H. destruct H as [Hc Hp].
  destruct p as [|d p']; [reflexivity|].
  rewrite Hc. simpl andb. cbv iota. rewrite IH by exact Hp. reflexivity.
Qed.

Lemma split_pair_app (p rest : jsstring) :
  has 0x3B p = false ->
  split_pair 0x3B 0x20 (p ++ 0x3B :: 0x20 :: rest)
  = p :: split_pair 0x3B 0x20 rest.
Proof.
  induction p as [|c p IH]; intros H.
  - reflexivity.
  - simpl in H. apply orb_false_iff in H. destruct H as [Hc Hp].
    specialize (IH Hp).
    change ((c :: p) ++ 0x3B :: 0x20 :: rest)
      with (c :: (p ++ 0x3B :: 0x20 :: rest)).
    remember (p ++ 0x3B :: 0x20 :: rest) as r eqn:Er.
    destruct r as [|d r'].
    + destruct p; discriminate Er.
    + change (split_pair 0x3B 0x20 (c :: d :: r'))
        with (if (c =? 0x3B) && (d =? 0x20)
              then [] :: split_pair 0x3B 0x20 r'
              else cons_first c (split_pair 0x3B 0x20 (d :: r'))).
      rewrite Hc, IH. reflexivity.
Qed.

Lemma split_pair_join (p : jsstring) (ps : list jsstring) :
  Forall (fun x => has 0x3B x = false) (p :: ps) ->
  split_pair 0x3B 0x20 (join (lit "; ") (p :: ps)) = p :: ps.
Proof.
  revert p. induction ps as [|q ps IH]; intros p H.
  - inversion H; subst. apply split_pair_piece. assumption.
  - inversion H as [|? ? Hp Hq]; subst.
    change (join (lit "; ") (p :: q :: ps))
      with (p ++ 0x3B :: 0x20 :: join (lit "; ") (q :: ps)).
    rewrite split_pair_app by exact Hp.
    rewrite IH by exact Hq. reflexivity.
Qed.

(** [s.split(sep)] starts with what is before the first separator. *)
Lemma split_char_take (sep : N) (s : jsstring) :
  split_char sep s
  = take_until sep s :: match drop_until sep s with
                        | Some r => split_char sep r
                        | None => []
                        end.
Proof.
  induction s as [|c s IH]; simpl; [reflexivity|].
  destruct (c =? sep); [reflexivity|].
  rewrite IH. reflexivity.
Qed.

Lemma join_split_char (sep : N) (v : jsstring) :
  join [sep] (split_char sep v) = v.
Proof.
  induction v as [|c v IH]; [reflexivity|]. simpl split_char.
  destruct (c =? sep) eqn:E.
  - apply N.eqb_eq in E. subst c.
    destruct (split_char sep v) as [|p ps] eqn:Es.
    + destruct v; simpl in Es; [discriminate Es|].
      destruct (n =? sep); [discriminate Es|].
      destruct (split_char sep v); discriminate Es.
    + change (join [sep] ([] :: p :: ps))
        with (sep :: join [sep] (p :: ps)).
      rewrite IH. reflexivity.
  - destruct (split_char sep v) as [|p ps] eqn:Es.
    + simpl in IH. subst v. reflexivity.
    + simpl cons_first. rewrite <- IH.
      destruct ps; reflexivity.
Qed.

(** One turn of the loop of [getCookie], on a cookie of the store. *)
Lemma find_cookie_cons (name : jsstring) (c : jsstring * jsstring)
      (more : list jsstring) :
  find_cookie name (cookie_pair c :: more)
  = if string_eqb (listed_key c) name
    then bind (decodeURIComponent (listed_value c)) (fun x => Ok (Some x))
    else find_cookie name more.
Proof.
  unfold listed_key, listed_value.
  generalize (cookie_pair c). intros s.
  cbn [find_cookie]. rewrite split_char_take.
  destruct (drop_until 0x3D s) as [r|];
    [rewrite join_split_char|]; reflexivity.
Qed.

(** [getCookie] finds the first cookie that is listed under the name. *)
Lemma find_cookie_jar (name : jsstring) (j : jar) :
  find_cookie name (List.map cookie_pair j)
  = match jar_find name j with
    | Some v => bind (decodeURIComponent v) (fun x => Ok (Some x))
    | None => Ok None
    end.
Proof.
  induction j as [|c j IH]; [reflexivity|].
  cbn [List.map jar_find]. rewrite find_cookie_cons.
  destruct (string_eqb (listed_key c) name); [reflexivity|exact IH].
Qed.

Lemma has_take_until (c sep : N) (s : jsstring) :
  has c s = false -> has c (take_until sep s) = false.
Proof.
  induction s as [|x s IH]; simpl; [reflexivity|].
  intros H. apply orb_false_iff in H. destruct H as [Hx Hs].
  destruct (x =? sep); simpl; [reflexivity|].
  rewrite Hx, IH by exact Hs. reflexivity.
Qed.

Lemma take_until_lacks (sep : N) (s : jsstring) :
  has sep (take_until sep s) = false.
Proof.
  induction s as [|x s IH]; simpl; [reflexivity|].
  destruct (x =? sep) eqn:E; simpl; [reflexivity|].
  rewrite E, IH. reflexivity.
Qed.

Lemma has_drop_until (c sep : N) (s r : jsstring) :
  has c s = false -> drop_until sep s = Some r -> has c r = false.
Proof.
  induction s as [|x s IH]; simpl; [discriminate|].
  intros H D. apply orb_false_iff in H. destruct H as [Hx Hs].
  destruct (x =? sep); [inversion D; subst; exact Hs|auto].
Qed.

Lemma has_drop_wsp (c : N) (s : jsstring) :
  has c s = false -> has c (drop_wsp s) = false.
Proof.
  induction s as [|x s IH]; simpl; [reflexivity|].
  intros H. destruct (is_wsp x); [|exact H].
  apply orb_false_iff in H. apply IH, H.
Qed.

Lemma has_trim_wsp (c : N) (s : jsstring) :
  has c s = false -> has c (trim_wsp s) = false.
Proof.
  intros H. unfold trim_wsp.
  rewrite has_rev. apply has_drop_wsp.
  rewrite has_rev. apply has_drop_wsp, H.
Qed.





(** The cookie of a text without a semicolon has none, and no equals
    sign in its name. *)
Lemma cookie_of_ok (pair : jsstring) :
  has 0x3B pair = false ->
  has 0x3B (fst (cookie_of pair)) = false
  /\ has 0x3D (fst (cookie_of pair)) = false
  /\ has 0x3B (snd (cookie_of pair)) = false.
Proof.
  intros P. unfold cookie_of.
  destruct (drop_until 0x3D pair) as [r|] eqn:D; cbn [fst snd].
  - split; [apply has_trim_wsp, has_take_until, P|].
    split; [apply has_trim_wsp, take_until_lacks|].
    apply has_trim_wsp. eapply has_drop_until; [exact P|exact D].
  - split; [reflexivity|]. split; [reflexivity|].
    apply has_trim_wsp, P.
Qed.


Lemma split_char_lacks (sep : N) (s : jsstring) :
  Forall (fun x => has sep x = false) (split_char sep s).
Proof.
  induction s as [|c s IH]; simpl; [repeat constructor|].
  destruct (c =? sep) eqn:E; [constructor; [reflexivity|exact IH]|].
  destruct (split_char sep s) as [|x xs]; simpl.
  - constructor; [simpl; rewrite E; reflexivity|constructor].
  - inversion IH as [|? ? Hx Hxs]; subst.
    constructor; [simpl; rewrite E, Hx; reflexivity|exact Hxs].
Qed.

(** Whatever the text, the cookies it lists are as [jar_ok] says. *)
Lemma store_of_ok (doc : jsstring) : jar_ok (store_of doc).
Proof.
  unfold jar_ok, store_of. apply Forall_forall. intros c Hc.
  apply filter_In in Hc. destruct Hc as [Hc Hn].
  apply in_map_iff in Hc. destruct Hc as (x & <- & Hx).
  pose proof (split_char_lacks 0x3B doc) as L.
  rewrite Forall_forall in L.
  destruct (cookie_of_ok x (L x Hx)) as (P1 & P2 & P3).
  apply negb_true_iff in Hn. auto.
Qed.

Lemma cookie_pair_ok (c : jsstring * jsstring) :
  has 0x3B (fst c) = false /\ has 0x3D (fst c) = false
  /\ has 0x3B (snd c) = false /\ is_empty (fst c) && is_empty (snd c) = false ->
  has 0x3B (cookie_pair c) = false /\ is_empty (cookie_pair c) = false.
Proof.
  intros (H1 & H2 & H3 & H4). unfold cookie_pair.
  destruct (fst c) as [|x n] eqn:E.
  - simpl in *. split; [exact H3|exact H4].
  - simpl is_empty. cbv iota. rewrite !has_app, H1, H3.
    split; reflexivity.
Qed.

(** [getCookie] on the text of [document.cookie]: the value, decoded, of
    the first cookie of the store that is listed under the name, and
    [null] when there is none. *)
Lemma getCookie_jar (name : jsstring) (j : jar) :
  jar_ok j ->
  getCookie name (document_cookie j)
  = match jar_find name j with
    | Some v => bind (decodeURIComponent v) (fun x => Ok (Some x))
    | None => Ok None
    end.
Proof.
  intros J. destruct j as [|c j']; [reflexivity|].
  rewrite <- find_cookie_jar. unfold getCookie, document_cookie.
  assert (P : Forall (fun x => has 0x3B x = false)
                     (List.map cookie_pair (c :: j'))).
  { apply Forall_map. eapply Forall_impl; [|exact J].
    intros a Ha. apply cookie_pair_ok, Ha. }
  cbn [List.map] in *.
  replace (is_empty (join (lit "; ") (cookie_pair c :: List.map cookie_pair j')))
    with false.
  - rewrite split_pair_join by exact P. reflexivity.
  - inversion J as [|? ? Hc _]; subst.
    apply cookie_pair_ok in Hc. destruct Hc as [_ Hc].
    destruct (cookie_pair c); [discriminate Hc|].
    destruct (List.map cookie_pair j'); reflexivity.
Qed.

Lemma jar_find_skip (name : jsstring) (a b : jar) :
  listed name a = false -> jar_find name (a ++ b) = jar_find name b.
Proof.
  induction a as [|c a IH]; [reflexivity|].
  unfold listed. cbn [existsb app jar_find]. intros H.
  apply orb_false_iff in H. destruct H as [Hc Ha].
  rewrite Hc. exact (IH Ha).
Qed.

Lemma jar_find_unlisted (name : jsstring) (j : jar) :
  listed name j = false -> jar_find name j = None.
Proof.
  intros H. rewrite <- (app_nil_r j). rewrite jar_find_skip by exact H.
  reflexivity.
Qed.










End Cookies.

Section Access.

Lemma forallb_has (f : N -> bool) (c : N) (s : jsstring) :
  f c = false -> forallb f s = true -> has c s = false.
Proof.
  intros Hc. induction s as [|x s IH]; simpl; [reflexivity|].
  intros H. apply andb_true_iff in H. destruct H as [Hx Hs].
  rewrite IH by exact Hs. rewrite orb_false_r.
  destruct (x =? c) eqn:E; [|reflexivity].
  apply N.eqb_eq in E. subst x. congruence.
Qed.

Lemma forallb_none (f g : N -> bool) (s : jsstring) :
  (forall c, g c = true -> f c = false) ->
  forallb f s = true -> existsb g s = false.
Proof.
  intros H. induction s as [|x s IH]; simpl; [reflexivity|].
  intros F. apply andb_true_iff in F. destruct F as [Fx Fs].
  rewrite (IH Fs), orb_false_r.
  destruct (g x) eqn:G; [|reflexivity].
  rewrite (H x G) in Fx. discriminate Fx.
Qed.

Lemma control_not_uri (c : N) : is_control c = true -> uri_char c = false.
Proof.
  unfold is_control. intros H.
  assert (K : c < 0x20 \/ c = 0x7F).
  { apply orb_true_iff in H. destruct H as [H|H].
    - apply andb_true_iff in H. destruct H as [H _]. bools. auto.
    - bools. auto. }
  unfold uri_char, uri_unescaped, is_alpha, is_digit.
  repeat (apply orb_false_iff; split);
    try (apply andb_false_iff);
    try apply N.eqb_neq; try (destruct K; [left|right]; apply N.leb_gt; lia);
    lia.
Qed.

Lemma control_not_name (c : N) : is_control c = true -> name_char c = false.
Proof.
  unfold is_control. intros H.
  assert (K : c < 0x20 \/ c = 0x7F).
  { apply orb_true_iff in H. destruct H as [H|H].
    - apply andb_true_iff in H. destruct H as [H _]. bools. auto.
    - bools. auto. }
  unfold name_char, is_alpha, is_digit.
  repeat (apply orb_false_iff; split);
    try (apply andb_false_iff);
    try apply N.eqb_neq; try (destruct K; [left|right]; apply N.leb_gt; lia);
    lia.
Qed.

(** A name of letters, digits and underscores has no semicolon, equals
    sign, space or tab, and browsers take it. *)
Lemma name_ok_plain (name : jsstring) :
  name_ok name = true ->
  has 0x3B name = false /\ has 0x3D name = false
  /\ has 0x20 name = false /\ has 0x09 name = false
  /\ is_empty name = false
  /\ forall enc, forallb uri_char enc = true -> refused name enc = false.
Proof.
  unfold name_ok. intros H. apply andb_true_iff in H. destruct H as [E F].
  apply negb_true_iff in E.
  repeat split; try exact E; try (apply (forallb_has name_char); auto).
  intros enc A. apply refused_plain.
  - apply (forallb_none name_char); [apply control_not_name|exact F].
  - apply (forallb_none uri_char); [apply control_not_uri|exact A].
  - exact E.
  - apply (forallb_has name_char); auto.
Qed.

(** What [setCookie] does to the store. *)
Lemma setCookie_store (p : platform) (name v enc : jsstring) (days : N)
      (j : jar) :
  name_ok name = true -> wf_string v -> encodeURIComponent v = Ok enc ->
  setCookie p name v days j
  = Ok (if (cookie_limit p <? List.length name + List.length enc)%nat then j
        else if days =? 0 then jar_remove name j
        else jar_put p name enc j).
Proof.
  intros Nm W E.
  destruct (name_ok_plain name Nm) as (N1 & N2 & N3 & N4 & N0 & R).
  pose proof (encode_alphabet _ _ _ (le_n _) W E) as A.
  unfold setCookie. rewrite E.
  transitivity
    (Ok (document_cookie_set
           p (days =? 0)
           (name ++ [0x3D] ++ enc
              ++ 0x3B :: (lit "expires=" ++ utc_string_after p days
                              ++ lit ";path=/"))
           j));
    [reflexivity|].
  rewrite document_cookie_set_put by auto. reflexivity.
Qed.




Lemma cookie_name_ok : name_ok COOKIE_NAME = true.
Proof. reflexivity. Qed.

End Access.

Section Codec.







(** A list whose cookie does not fit leaves the store as it is. *)
Lemma save_over_limit (p : platform) (l : list Todo) (j : jar) :
  Forall wf_todo l -> fits p l = false -> saveTodosToCookie p l j = Ok j.
Proof.
  intros W F.
  destruct (encodable_stringify l) as [enc E].
  unfold fits in F. rewrite E in F.
  unfold saveTodosToCookie.
  rewrite (setCookie_store p COOKIE_NAME _ enc _ _ cookie_name_ok
                           (wf_stringify l W) E).
  apply Nat.leb_gt in F.
  replace (cookie_limit p <? _)%nat with true
    by (symmetry; apply Nat.ltb_lt; exact F).
  reflexivity.
Qed.





Lemma wf_lit (s : string) : wf_string (lit s).
Proof.
  unfold lit. apply Forall_forall. intros c Hc.
  apply in_map_iff in Hc. destruct Hc as (a & <- & _).
  unfold code_unit. pose proof (N_ascii_bounded a). lia.
Qed.

Lemma wf_repeat (c : N) (n : nat) : c < 0x10000 -> wf_string (repeat c n).
Proof.
  intros H. apply Forall_forall. intros x Hx.
  apply repeat_spec in Hx. subst x. exact H.
Qed.

End Codec.




(** C4 (as amended): [add] and [rename] store trimmed titles and reject
    a title that is empty or white space only; so when no title of the
    list is blank, none is after any sequence of add, toggle, rename,
    remove and clearCompleted operations.  (What [load()] brings from
    the cookie is not checked.) *)
Theorem titles_stay_nonblank (ops : list op) (s : AppState) :
  titled (todos s) -> titled (todos (run ops s)).
Proof.
  revert s. induction ops as [|o ops IH]; intros s T; simpl; [exact T|].
  apply IH, apply_op_titled, T.
Qed.

Lemma titles_stay_nonblank_witness :
  titled (todos (run [Add (lit "   ") sample_uuid sample_now;
                      Rename (lit "b") (lit " ");
                      Rename (lit "a") (lit " Ah ");
                      Add (lit " Buy milk ") sample_uuid sample_now;
                      Toggle (lit "c")]
                     sample_app)).
Proof.
  apply titles_stay_nonblank.
  repeat constructor.
Defined.

(** C4 as it is written fails: a task with an empty title that is in
    the cookie enters the store when the list is loaded. *)
Lemma load_blank_title :
  loadTodosFromCookie untitled_cookie = [todo_value untitled_task]
  /\ title untitled_task = []
  /\ ~ titled [untitled_task]
  /\ (exists j, saveTodosToCookie sample_platform [untitled_task] [] = Ok j
                /\ document_cookie j = untitled_cookie).
Proof.
  split; [vm_compute; reflexivity|]. split; [reflexivity|]. split.
  - intros H. inversion H as [|? ? B _]; subst. discriminate B.
  - eexists. split; vm_compute; reflexivity.
Qed.

(** C10: [toggle(id)] negates the [completed] flag of every task with
    that id and [rename(id, newTitle)] gives the trimmed title to every
    task with that id, not to the first one only, the other fields of
    the task staying as they were; a list with two tasks of one id comes
    from a cookie that holds them, since loading checks no id.  On the
    list of the two tasks with id 1, A active and B completed,
    [toggle("1")] leaves A completed and B active, and
    [rename("1", " C ")] gives both the title C. *)
Theorem toggle_rename_every_match (s : AppState) (i v : jsstring) :
  (forall n t, nth_error (todos s) n = Some t -> id t = i ->
     nth_error (todos (apply_op (Toggle i) s)) n
     = Some (mkTodo (id t) (title t) (negb (completed t)) (createdAt t)))
  /\ (is_empty (trim v) = false ->
      forall n t, nth_error (todos s) n = Some t -> id t = i ->
        nth_error (todos (apply_op (Rename i v) s)) n
        = Some (mkTodo (id t) (trim v) (completed t) (createdAt t)))
  /\ loadTodosFromCookie twins_cookie = List.map todo_value [twin_A; twin_B]
  /\ (exists j, saveTodosToCookie sample_platform [twin_A; twin_B] [] = Ok j
                /\ document_cookie j = twins_cookie)
  /\ id twin_A = id twin_B
  /\ todos (apply_op (Toggle (lit "1")) (mkApp [twin_A; twin_B] [] None [] FAll))
     = [mkTodo (lit "1") (lit "A") true (lit "2026-01-01T09:00:00.000Z");
        mkTodo (lit "1") (lit "B") false (lit "2026-01-02T09:00:00.000Z")]
  /\ todos (apply_op (Rename (lit "1") (lit " C "))
                     (mkApp [twin_A; twin_B] [] None [] FAll))
     = [mkTodo (lit "1") (lit "C") false (lit "2026-01-01T09:00:00.000Z");
        mkTodo (lit "1") (lit "C") true (lit "2026-01-02T09:00:00.000Z")].
Proof.
  split; [|split; [|split; [vm_compute; reflexivity|split]]].
  3:{ eexists. split; vm_compute; reflexivity. }
  3:{ repeat split; vm_compute; reflexivity. }
  - intros n t H E. simpl.
    rewrite (nth_error_map_some _ _ _ _ H).
    apply string_eqb_eq in E. rewrite E. reflexivity.
  - intros Ev n t H E. simpl. unfold handleEditSubmit. simpl.
    rewrite Ev. simpl.
    rewrite (nth_error_map_some _ _ _ _ H).
    apply string_eqb_eq in E. rewrite E. reflexivity.
Qed.

Lemma toggle_rename_every_match_witness :
  nth_error (todos (apply_op (Toggle (lit "1"))
                             (mkApp [twin_A; twin_B] [] None [] FAll))) 1
  = Some (mkTodo (lit "1") (lit "B") false (lit "2026-01-02T09:00:00.000Z"))
  /\ nth_error (todos (apply_op (Rename (lit "1") (lit " C "))
                                (mkApp [twin_A; twin_B] [] None [] FAll))) 1
     = Some (mkTodo (lit "1") (lit "C") true (lit "2026-01-02T09:00:00.000Z")).
Proof.
  split.
  - apply (proj1 (toggle_rename_every_match
                    (mkApp [twin_A; twin_B] [] None [] FAll)
                    (lit "1") (lit " C ")) 1%nat twin_B);
      reflexivity.
  - apply (proj1 (proj2 (toggle_rename_every_match
                           (mkApp [twin_A; twin_B] [] None [] FAll)
                           (lit "1") (lit " C ")))
                 eq_refl 1%nat twin_B);
      reflexivity.
Defined.

(* ================================================================= *)
(** * Further properties of the task store *)

Section Views.

Lemma filter_fixed {A} (p : A -> bool) (l : list A) :
  forallb p l = true -> List.filter p l = l.
Proof.
  induction l as [|x l IH]; simpl; [reflexivity|].
  intros H. apply andb_true_iff in H. destruct H as [Hx Hl].
  rewrite Hx, IH by exact Hl. reflexivity.
Qed.

Lemma filter_length_bound {A} (p : A -> bool) (l : list A) :
  (List.length (List.filter p l) <= List.length l)%nat.
Proof.
  induction l as [|x l IH]; simpl; [lia|].
  destruct (p x); simpl; lia.
Qed.

Lemma filter_full {A} (p : A -> bool) (l : list A) :
  List.length (List.filter p l) = List.length l -> forallb p l = true.
Proof.
  induction l as [|x l IH]; simpl; [reflexivity|].
  pose proof (filter_length_bound p l) as B.
  destruct (p x); simpl; intros H; [apply IH; lia|lia].
Qed.

Lemma filter_split_length {A} (p : A -> bool) (l : list A) :
  (List.length (List.filter (fun x => negb (p x)) l)
   + List.length (List.filter p l) = List.length l)%nat.
Proof.
  induction l as [|x l IH]; simpl; [reflexivity|].
  destruct (p x); simpl; lia.
Qed.

Lemma filter_none {A} (p q : A -> bool) (l : list A) :
  (forall x, p x = true -> q x = false) ->
  List.filter q (List.filter p l) = [].
Proof.
  intros H. induction l as [|x l IH]; simpl; [reflexivity|].
  destruct (p x) eqn:E; simpl; [|exact IH].
  rewrite (H x E). exact IH.
Qed.

Lemma filter_twice {A} (p : A -> bool) (l : list A) :
  List.filter p (List.filter p l) = List.filter p l.
Proof.
  apply filter_fixed. apply forallb_forall. intros x Hx.
  apply filter_In in Hx. tauto.
Qed.

Lemma filter_map_swap {A} (p : A -> bool) (f : A -> A) (l : list A) :
  (forall x, p (f x) = p x) ->
  List.filter p (List.map f l) = List.map f (List.filter p l).
Proof.
  intros H. induction l as [|x l IH]; simpl; [reflexivity|].
  rewrite H. destruct (p x); simpl; rewrite IH; reflexivity.
Qed.

Lemma filter_swap {A} (p q : A -> bool) (l : list A) :
  List.filter p (List.filter q l) = List.filter q (List.filter p l).
Proof.
  induction l as [|x l IH]; simpl; [reflexivity|].
  destruct (p x) eqn:P, (q x) eqn:Q; simpl; rewrite ?P, ?Q, IH; reflexivity.
Qed.

Lemma forallb_false_ex {A} (p : A -> bool) (l : list A) :
  forallb p l = false <-> exists x, In x l /\ p x = false.
Proof.
  induction l as [|x l IH]; simpl.
  - split; [discriminate|intros (x & [] & _)].
  - rewrite andb_false_iff, IH. split.
    + intros [H|(y & H1 & H2)]; eauto.
    + intros (y & [->|H1] & H2); eauto.
Qed.

End Views.

(** X1: [remove(id)] leaves exactly the tasks with another id, each as
    it was, as many times as it was there and in the order of the list:
    the tasks that go are those with the id, all of them, and the list
    gets shorter by their number; it changes nothing when no task has
    the id, and removing twice is removing once; no task of the result
    has the id; when the ids are distinct and a task has the id, the
    list gets shorter by one.  From B, B, A, removing the id of A
    leaves B, B. *)
Theorem remove_spec (s : AppState) (i : jsstring) :
  let s' := apply_op (Remove i) s in
  (forall t, In t (todos s') <-> In t (todos s) /\ id t <> i)
  /\ Subseq (todos s') (todos s)
  /\ ~ In i (ids (todos s'))
  /\ (~ In i (ids (todos s)) -> todos s' = todos s)
  /\ todos (apply_op (Remove i) s') = todos s'
  /\ (NoDup (ids (todos s)) -> In i (ids (todos s)) ->
      S (List.length (todos s')) = List.length (todos s))
  /\ (List.length (todos s')
      + List.length (List.filter (fun t => string_eqb (id t) i) (todos s))
      = List.length (todos s))%nat
  /\ (exists gone, Permutation (todos s' ++ gone) (todos s)
                   /\ Forall (fun t => id t = i) gone)
  /\ todos (apply_op (Remove (lit "a"))
                     (mkApp [task_B; task_B; task_A] [] None [] FAll))
     = [task_B; task_B].
Proof.
  simpl. split; [|split; [|split; [|split; [|split; [|split]]]]].
  - intros t. rewrite filter_In, negb_true_iff, string_eqb_neq. reflexivity.
  - apply Subseq_filter.
  - unfold ids. rewrite in_map_iff. intros (t & E & H).
    apply filter_In in H. destruct H as [_ H].
    apply negb_true_iff, string_eqb_neq in H. contradiction.
  - intros H. apply filter_fixed. apply forallb_forall. intros t Ht.
    rewrite (not_in_ids _ _ H t Ht). reflexivity.
  - apply filter_twice.
  - generalize (todos s). intros l. induction l as [|x l IH]; simpl;
      intros N H; [contradiction|].
    inversion N as [|? ? Nx Nl]; subst.
    destruct (string_eqb (id x) i) eqn:E; simpl.
    + apply string_eqb_eq in E. subst i.
      rewrite filter_fixed; [reflexivity|].
      apply forallb_forall. intros t Ht.
      rewrite (not_in_ids _ _ Nx t Ht). reflexivity.
    + apply string_eqb_neq in E. destruct H as [H|H]; [contradiction|].
      rewrite (IH Nl H). reflexivity.
  - split; [apply filter_split_length|]. split; [|reflexivity].
    exists (List.filter (fun t => string_eqb (id t) i) (todos s)).
    split; [apply (filter_partition_perm (fun t => string_eqb (id t) i))|].
    apply Forall_forall. intros t Ht. apply filter_In in Ht.
    apply string_eqb_eq, Ht.
Qed.

Lemma remove_spec_witness :
  todos (apply_op (Remove (lit "z")) sample_app) = todos sample_app
  /\ S (List.length (todos (apply_op (Remove (lit "b")) sample_app)))
     = List.length (todos sample_app).
Proof.
  split.
  - apply (proj1 (proj2 (proj2 (proj2 (remove_spec sample_app (lit "z")))))).
    vm_compute. intros [H|[H|[H|[]]]]; discriminate H.
  - apply (proj1 (proj2 (proj2 (proj2 (proj2 (proj2
             (remove_spec sample_app (lit "b")))))))).
    + vm_compute. repeat constructor;
        intros H; repeat (destruct H as [H|H]; [discriminate H|]); exact H.
    + vm_compute. right. left. reflexivity.
Defined.

(** X2: the count of remaining tasks and the number of completed tasks
    add up to the length of the list; the count is the length of the
    ['active'] view, and it is never more than the length of the
    list. *)
Theorem activeCount_spec (s : AppState) :
  (activeCount s + List.length (List.filter completed (todos s))
   = List.length (todos s))%nat
  /\ activeCount s = List.length (filteredTodos (setFilter FActive s))
  /\ (activeCount s <= List.length (todos s))%nat.
Proof.
  unfold activeCount. split; [|split].
  - apply (filter_split_length completed).
  - reflexivity.
  - apply filter_length_bound.
Qed.

(** X3: the button that clears the completed tasks is disabled exactly
    when no task is completed, which is exactly when clearing would
    leave the list as it is. *)
Theorem clearDisabled_spec (s : AppState) :
  (clearDisabled s = true <-> forallb (fun t => negb (completed t)) (todos s) = true)
  /\ (clearDisabled s = true <-> todos (handleClearCompleted s) = todos s)
  /\ (clearDisabled s = false <-> exists t, In t (todos s) /\ completed t = true).
Proof.
  unfold clearDisabled, activeCount. simpl.
  assert (A : Nat.eqb (List.length (todos s))
                      (List.length (List.filter (fun t => negb (completed t))
                                                (todos s))) = true
              <-> forallb (fun t => negb (completed t)) (todos s) = true).
  { rewrite Nat.eqb_eq. split.
    - intros H. apply filter_full. symmetry. exact H.
    - intros H. rewrite filter_fixed by exact H. reflexivity. }
  split; [exact A|]. split.
  - rewrite A. split.
    + apply filter_fixed.
    + intros H. apply filter_full. rewrite H. reflexivity.
  - rewrite <- not_true_iff_false, A, not_true_iff_false.
    rewrite forallb_false_ex.
    split; intros (t & H1 & H2); exists t; split; auto.
    + apply negb_false_iff, H2.
    + apply negb_false_iff, H2.
Qed.

(** X4: after [clearCompleted()] the ['completed'] view is empty, the
    ['active'] view and the count of remaining tasks are as before, the
    button is disabled, and clearing again changes nothing. *)
Theorem clearCompleted_views (s : AppState) :
  let s' := handleClearCompleted s in
  filteredTodos (setFilter FCompleted s') = []
  /\ filteredTodos (setFilter FActive s') = filteredTodos (setFilter FActive s)
  /\ activeCount s' = activeCount s
  /\ clearDisabled s' = true
  /\ todos (handleClearCompleted s') = todos s'.
Proof.
  unfold filteredTodos, activeCount, clearDisabled, activeCount. simpl.
  split; [|split; [|split; [|split]]].
  - apply filter_none. intros x H. apply negb_true_iff, H.
  - apply filter_twice.
  - rewrite filter_twice. reflexivity.
  - rewrite filter_twice. apply Nat.eqb_refl.
  - apply filter_twice.
Qed.

(** X18: the line that says that there is no task shows under ['all']
    exactly when the list is empty, under ['active'] exactly when no
    task remains, and under ['completed'] exactly when the button that
    clears the completed tasks is disabled. *)
Theorem showsEmpty_spec (s : AppState) :
  (showsEmpty (setFilter FAll s) = true <-> todos s = [])
  /\ (showsEmpty (setFilter FActive s) = true <-> activeCount s = 0%nat)
  /\ showsEmpty (setFilter FCompleted s) = clearDisabled s.
Proof.
  unfold showsEmpty, clearDisabled, filteredTodos, activeCount. simpl.
  split; [|split].
  - rewrite Nat.eqb_eq. destruct (todos s); simpl; split; congruence.
  - apply Nat.eqb_eq.
  - pose proof (filter_split_length completed (todos s)) as L.
    destruct (Nat.eqb (List.length (List.filter (fun t => completed t)
                                                (todos s))) 0) eqn:E.
    + apply Nat.eqb_eq in E. symmetry. apply Nat.eqb_eq.
      change (fun t : Todo => completed t) with completed in E. lia.
    + apply Nat.eqb_neq in E. symmetry. apply Nat.eqb_neq.
      change (fun t : Todo => completed t) with completed in E. lia.
Qed.

Section Trim.

Lemma trim_start_fixed (s : jsstring) :
  match s with [] => True | c :: _ => is_white_space c = false end ->
  trim_start s = s.
Proof. destruct s as [|c r]; simpl; [reflexivity|]. intros ->. reflexivity. Qed.

Lemma trim_start_idem (s : jsstring) : trim_start (trim_start s) = trim_start s.
Proof.
  apply trim_start_fixed.
  destruct (trim_start s) as [|c r] eqn:E; [exact I|].
  exact (trim_start_head _ _ _ E).
Qed.

Lemma trim_start_snoc (m : jsstring) (c : N) :
  is_white_space c = false -> trim_start (m ++ [c]) = trim_start m ++ [c].
Proof.
  intros H. induction m as [|x m IH]; simpl; [rewrite H; reflexivity|].
  destruct (is_white_space x); [exact IH|reflexivity].
Qed.

(** What [trim_end] leaves of a string that does not start with white
    space does not start with white space. *)
Lemma trim_end_head (a : jsstring) :
  match a with [] => True | c :: _ => is_white_space c = false end ->
  match trim_end a with [] => True | c :: _ => is_white_space c = false end.
Proof.
  destruct a as [|c r]; [intros _; exact I|]. intros H.
  unfold trim_end. simpl rev. rewrite trim_start_snoc by exact H.
  rewrite rev_app_distr. simpl. exact H.
Qed.

(** Trimming what is trimmed changes nothing. *)
Lemma trim_idem (s : jsstring) : trim (trim s) = trim s.
Proof.
  unfold trim.
  assert (H : match trim_start s with
              | [] => True
              | c :: _ => is_white_space c = false
              end).
  { destruct (trim_start s) as [|c r] eqn:E; [exact I|].
    exact (trim_start_head _ _ _ E). }
  rewrite (trim_start_fixed (trim_end (trim_start s)))
    by (apply trim_end_head, H).
  unfold trim_end. rewrite rev_involutive, trim_start_idem. reflexivity.
Qed.




End Trim.

Section Compose.

Lemma apply_op_trimmed (o : op) (s : AppState) :
  all_trimmed (todos s) -> all_trimmed (todos (apply_op o s)).
Proof.
  unfold all_trimmed. intros T.
  destruct o as [t uuid now|i|i t|i|]; simpl.
  - unfold handleAddTodo; simpl.
    destruct (is_empty (trim t)); simpl; [exact T|].
    constructor; [apply trim_idem|exact T].
  - apply Forall_map. eapply Forall_impl; [|exact T].
    intros x Hx. destruct (string_eqb (id x) i); exact Hx.
  - unfold handleEditSubmit; simpl.
    destruct (is_empty (trim t)); simpl; [exact T|].
    apply Forall_map. eapply Forall_impl; [|exact T].
    intros x Hx. destruct (string_eqb (id x) i); [apply trim_idem|exact Hx].
  - apply Forall_forall. intros x Hx. apply filter_In in Hx.
    rewrite Forall_forall in T. apply T, Hx.
  - apply Forall_forall. intros x Hx. apply filter_In in Hx.
    rewrite Forall_forall in T. apply T, Hx.
Qed.


(** In a list with distinct ids, the task with a given id is the only
    one a map on that id touches. *)
Lemma map_on_id (f : Todo -> Todo) (l : list Todo) (t : Todo) :
  NoDup (ids l) -> In t l -> f t = t ->
  List.map (fun x => if string_eqb (id x) (id t) then f x else x) l = l.
Proof.
  intros N H F. apply map_id_when. intros x Hx.
  destruct (string_eqb (id x) (id t)) eqn:E; [|reflexivity].
  apply string_eqb_eq in E.
  assert (x = t); [|subst; exact F].
  clear F. induction l as [|y l IH]; [contradiction|].
  simpl in N. inversion N as [|? ? Ny Nl]; subst.
  destruct H as [->|H], Hx as [->|Hx]; auto.
  - exfalso. apply Ny. rewrite <- E. apply in_map, Hx.
  - exfalso. apply Ny. rewrite E. apply in_map, H.
Qed.

End Compose.

(** X5: an [add] that is not rejected puts the new task at the head of
    the ['all'] and ['active'] views, leaves the ['completed'] view as
    it was, raises the count of remaining tasks by one and empties the
    entry field; a rejected [add] changes nothing, and the text that was
    typed stays in the entry field. *)
Theorem add_views (s : AppState) (t uuid now : jsstring) :
  let s' := apply_op (Add t uuid now) s in
  let task := mkTodo uuid (trim t) false now in
  (blank t = false ->
   filteredTodos (setFilter FAll s') = task :: todos s
   /\ filteredTodos (setFilter FActive s')
      = task :: filteredTodos (setFilter FActive s)
   /\ filteredTodos (setFilter FCompleted s')
      = filteredTodos (setFilter FCompleted s)
   /\ activeCount s' = S (activeCount s)
   /\ clearDisabled s' = clearDisabled s
   /\ newTitle s' = [])
  /\ (blank t = true -> s' = setNewTitle t s).
Proof.
  simpl. unfold handleAddTodo. simpl. rewrite trim_empty_blank.
  split; intros B; rewrite B; [|reflexivity].
  unfold filteredTodos, activeCount, clearDisabled, activeCount. simpl.
  repeat split.
Qed.

Lemma add_views_witness :
  activeCount (apply_op (Add (lit " Buy milk ") sample_uuid sample_now)
                        sample_app) = 2%nat
  /\ newTitle (apply_op (Add (lit "  ") sample_uuid sample_now) sample_app)
     = lit "  ".
Proof.
  split.
  - apply (proj1 (add_views sample_app (lit " Buy milk ") sample_uuid
                            sample_now) eq_refl).
  - rewrite (proj2 (add_views sample_app (lit "  ") sample_uuid sample_now)
                   eq_refl).
    reflexivity.
Defined.

(** X6: in a list with distinct ids, [toggle(id)] of a task that is
    there moves the count of remaining tasks by exactly one: down when
    the task was active, up when it was completed. *)
Theorem toggle_activeCount (s : AppState) (t : Todo) :
  NoDup (ids (todos s)) -> In t (todos s) ->
  activeCount (apply_op (Toggle (id t)) s)
  = if completed t then S (activeCount s) else Nat.pred (activeCount s).
Proof.
  unfold activeCount. simpl. generalize (todos s). intros l.
  induction l as [|x l IH]; intros N H; [contradiction|].
  simpl in N. inversion N as [|? ? Nx Nl]; subst.
  destruct H as [->|H].
  - simpl. rewrite string_eqb_refl.
    rewrite (map_id_when _ l).
    2:{ intros y Hy. rewrite (not_in_ids _ _ Nx y Hy). reflexivity. }
    unfold flip_completed. simpl. destruct (completed t); reflexivity.
  - assert (E : string_eqb (id x) (id t) = false).
    { apply string_eqb_neq. intros E. apply Nx. rewrite E. apply in_map, H. }
    simpl. rewrite E. specialize (IH Nl H).
    destruct (completed x) eqn:Cx; simpl; [exact IH|].
    rewrite IH. destruct (completed t) eqn:Ct; [reflexivity|].
    assert (P : (1 <= List.length (List.filter (fun u => negb (completed u)) l))%nat).
    { assert (I : In t (List.filter (fun u => negb (completed u)) l))
        by (apply filter_In; rewrite Ct; auto).
      destruct (List.filter (fun u => negb (completed u)) l);
        [contradiction|simpl; lia]. }
    lia.
Qed.

Lemma toggle_activeCount_witness :
  activeCount (apply_op (Toggle (lit "a")) sample_app) = 2%nat
  /\ activeCount (apply_op (Toggle (lit "b")) sample_app) = 0%nat.
Proof.
  assert (N : NoDup (ids (todos sample_app))).
  { vm_compute. repeat constructor;
      intros H; repeat (destruct H as [H|H]; [discriminate H|]); exact H. }
  split.
  - apply (toggle_activeCount sample_app task_A N). left. reflexivity.
  - apply (toggle_activeCount sample_app task_B N). right. left. reflexivity.
Defined.

(** X13: a title that [add] or [rename] stores has no white space at
    its ends, since trimming it again changes nothing; so when every
    title of the list is trimmed, every title is after any sequence of
    operations. *)
Theorem titles_stay_trimmed (ops : list op) (s : AppState) :
  all_trimmed (todos s) -> all_trimmed (todos (run ops s)).
Proof.
  revert s. induction ops as [|o ops IH]; intros s T; simpl; [exact T|].
  apply IH, apply_op_trimmed, T.
Qed.

Lemma titles_stay_trimmed_witness :
  all_trimmed (todos (run [Add (lit "  Buy milk  ") sample_uuid sample_now;
                           Rename (lit "a") (lit " Ah ");
                           Toggle (lit "c")]
                          sample_app)).
Proof.
  apply titles_stay_trimmed. repeat constructor.
Defined.

(** X14: in a list with distinct ids, opening the edit field of a task
    whose title is trimmed and committing it at once leaves the list as
    it was; the Escape key leaves the list as it was whatever was typed;
    both close the edit field. *)
Theorem edit_unchanged (s : AppState) (t : Todo) (typed : jsstring) :
  NoDup (ids (todos s)) -> In t (todos s) -> trim (title t) = title t ->
  let committed := handleEditSubmit (id t) (startEditTodo t s) in
  let cancelled := cancelEdit (setEditingTitle typed (startEditTodo t s)) in
  todos committed = todos s
  /\ todos cancelled = todos s
  /\ editingId committed = None /\ editingTitle committed = []
  /\ editingId cancelled = None /\ editingTitle cancelled = [].
Proof.
  intros N H T. simpl. unfold handleEditSubmit. simpl. rewrite T.
  destruct (is_empty (title t)); simpl; repeat split.
  apply (map_on_id (with_title (title t))); auto.
  destruct t; reflexivity.
Qed.

Lemma edit_unchanged_witness :
  todos (handleEditSubmit (id task_B) (startEditTodo task_B sample_app))
  = todos sample_app.
Proof.
  apply (edit_unchanged sample_app task_B (lit "typed")).
  - vm_compute. repeat constructor;
      intros H; repeat (destruct H as [H|H]; [discriminate H|]); exact H.
  - right. left. reflexivity.
  - reflexivity.
Defined.

(** X15: removing the id that an [add] was just given gives the list
    back, when no task had that id before. *)
Theorem remove_undoes_add (s : AppState) (t uuid now : jsstring) :
  ~ In uuid (ids (todos s)) ->
  todos (apply_op (Remove uuid) (apply_op (Add t uuid now) s)) = todos s.
Proof.
  intros F. simpl. unfold handleAddTodo. simpl.
  assert (K : List.filter (fun x => negb (string_eqb (id x) uuid)) (todos s)
              = todos s).
  { apply filter_fixed, forallb_forall. intros x Hx.
    rewrite (not_in_ids _ _ F x Hx). reflexivity. }
  destruct (is_empty (trim t)); simpl; [exact K|].
  rewrite string_eqb_refl. simpl. exact K.
Qed.

Lemma remove_undoes_add_witness :
  todos (apply_op (Remove sample_uuid)
                  (apply_op (Add (lit "Buy milk") sample_uuid sample_now)
                            sample_app))
  = todos sample_app.
Proof.
  apply remove_undoes_add.
  vm_compute. intros [H|[H|[H|[]]]]; discriminate H.
Defined.

(** X17: [toggle] and [rename] commute, whatever their ids are, and
    [remove] commutes with [toggle], with [rename] and with
    [clearCompleted]. *)
Theorem operations_commute (s : AppState) (i k v : jsstring) :
  todos (apply_op (Toggle i) (apply_op (Rename k v) s))
  = todos (apply_op (Rename k v) (apply_op (Toggle i) s))
  /\ todos (apply_op (Remove i) (apply_op (Toggle k) s))
     = todos (apply_op (Toggle k) (apply_op (Remove i) s))
  /\ todos (apply_op (Remove i) (apply_op (Rename k v) s))
     = todos (apply_op (Rename k v) (apply_op (Remove i) s))
  /\ todos (apply_op (Remove i) (apply_op ClearCompleted s))
     = todos (apply_op ClearCompleted (apply_op (Remove i) s)).
Proof.
  simpl. unfold handleEditSubmit. simpl.
  split; [|split; [|split]].
  - destruct (is_empty (trim v)); simpl; [reflexivity|].
    rewrite !map_map. apply map_ext. intros t.
    destruct (string_eqb (id t) k) eqn:Ek, (string_eqb (id t) i) eqn:Ei;
      simpl; rewrite ?Ek, ?Ei; reflexivity.
  - apply filter_map_swap. intros t.
    destruct (string_eqb (id t) k); reflexivity.
  - destruct (is_empty (trim v)); simpl; [reflexivity|].
    apply filter_map_swap. intros t.
    destruct (string_eqb (id t) k); reflexivity.
  - apply filter_swap.
Qed.

(* ================================================================= *)
(** * Further properties of the cookie store and of the codec *)

Section Store_access.






End Store_access.





(** X9: [saveTodosToCookie] does not throw, whatever the strings of the
    tasks are, a surrogate without its partner included: [JSON.stringify]
    escapes it.  [setCookie] itself throws a [URIError] on a value that
    is such a surrogate. *)
Theorem save_never_throws (p : platform) (j : jar) :
  (forall l, exists j', saveTodosToCookie p l j = Ok j')
  /\ (forall name c days,
        is_high_surrogate c || is_low_surrogate c = true ->
        setCookie p name [c] days j = Throw URIError).
Proof.
  split.
  - intros l. destruct (encodable_stringify l) as [enc E].
    unfold saveTodosToCookie, setCookie. rewrite E. simpl. eauto.
  - intros name c days H. unfold setCookie. simpl.
    replace (uri_unescaped c) with false.
    + destruct (is_high_surrogate c); [reflexivity|].
      simpl in H. rewrite H. reflexivity.
    + symmetry. unfold is_high_surrogate, is_low_surrogate in H.
      unfold uri_unescaped, is_alpha, is_digit.
      apply orb_true_iff in H. destruct H as [H|H]; bools;
        repeat (apply orb_false_iff; split);
        try (apply andb_false_iff; right); try apply N.leb_gt;
        try apply N.eqb_neq; lia.
Qed.

Lemma save_never_throws_witness :
  setCookie sample_platform COOKIE_NAME [0xD83D] 30 [] = Throw URIError
  /\ exists j', saveTodosToCookie sample_platform
                  [mkTodo sample_uuid [0xD83D] false sample_now] [] = Ok j'.
Proof.
  split.
  - apply (proj2 (save_never_throws sample_platform [])). reflexivity.
  - apply (proj1 (save_never_throws sample_platform [])).
Defined.

(** X10: when the page lists no cookie under the name (none has the
    name, and none has an empty name and the name as its value),
    [getCookie] gives [null]; so [loadTodosFromCookie] gives the empty
    list when nothing is listed under [react_todo_list], whatever else
    the page lists.  A cookie with an empty name and the value
    [react_todo_list] is listed under that name: [getCookie] then gives
    the empty string, not [null]. *)
Theorem getCookie_absent (doc name : jsstring) :
  listed name (store_of doc) = false ->
  getCookie name (document_cookie (store_of doc)) = Ok None
  /\ (name = COOKIE_NAME ->
      loadTodosFromCookie (document_cookie (store_of doc)) = [])
  /\ document_cookie (store_of sample_doc) = sample_doc
  /\ getCookie COOKIE_NAME sample_doc = Ok None
  /\ document_cookie (store_of shadow_doc) = shadow_doc
  /\ getCookie COOKIE_NAME shadow_doc = Ok (Some []).
Proof.
  intros A.
  assert (G : getCookie name (document_cookie (store_of doc)) = Ok None).
  { rewrite getCookie_jar by apply store_of_ok.
    rewrite jar_find_unlisted by exact A. reflexivity. }
  split; [exact G|]. split.
  - intros ->.
    unfold loadTodosFromCookie, loadTodosFromCookie_try. rewrite G.
    reflexivity.
  - repeat split; vm_compute; reflexivity.
Qed.

Lemma getCookie_absent_witness :
  getCookie COOKIE_NAME (document_cookie (store_of sample_doc)) = Ok None
  /\ loadTodosFromCookie (document_cookie (store_of sample_doc)) = [].
Proof.
  destruct (getCookie_absent sample_doc COOKIE_NAME
              ltac:(vm_compute; reflexivity)) as (G & Ld & _).
  split; [exact G|exact (Ld eq_refl)].
Defined.

(** X11: when the cookie of a list does not fit the limit of the
    browser, [saveTodosToCookie] returns normally and the store is as
    it was: what was saved before stays there. *)
Theorem save_over_limit_keeps_store (p : platform) (l : list Todo) (j : jar) :
  Forall wf_todo l -> fits p l = false ->
  saveTodosToCookie p l j = Ok j.
Proof. apply save_over_limit. Qed.

Lemma save_over_limit_keeps_store_witness :
  saveTodosToCookie sample_platform [long_task]
                    [(COOKIE_NAME, lit "%5B%5D")]
  = Ok [(COOKIE_NAME, lit "%5B%5D")].
Proof.
  apply save_over_limit_keeps_store.
  - constructor; [|constructor].
    split; [exact (wf_lit _)|].
    split; [exact (wf_repeat 0x61 4100 eq_refl)|exact (wf_lit _)].
  - vm_compute. reflexivity.
Defined.






